(** * ub: environment variables to Java properties

    A shallow embedding of the property-rendering core of [ub.go]
    ([ConvertKey], [ListToMap], [splitToMapDefaults], [GetEnvironment],
    [BuildProperties], [writeConfig], [renderConfig],
    [renderConfigViaPrefix]) and the properties proved about it.

    Modelling conventions.
    - A Go [string] is a sequence of bytes: Rocq's [string].  The embedding
      of the rune-based library calls ([regexp], [strings.ToLower],
      [strings.Split] with an empty separator) is byte-wise, which is what
      Go computes on ASCII strings, the domain of environment-variable
      names.
    - A Go [map[string]T] is a [gmap string T].  A [range] over a map
      visits every entry once in an order the runtime chooses anew at
      every loop: the order is an explicit input of the embedding (the
      [Runtime] record below), restricted only to being a permutation of
      the map's entries.
    - A run-time panic (slice out of range, [panic(err)]) is [None] in the
      [option] monad. *)

From stdpp Require Import gmap strings list fin_maps sorting.
From Stdlib Require Import Ascii String.

Open Scope string_scope.

(** ** Go's [strings] package, on byte strings *)

Module strings.

(** [strings.HasPrefix(s, prefix)] *)
Definition HasPrefix (s prefix : string) : bool := String.prefix prefix s.

(** The slice expression [s[n:]]: it panics when [n > len(s)]. *)
Fixpoint slice_from (s : string) (n : nat) : option string :=
  match n, s with
  | 0, _ => Some s
  | S n', String _ s' => slice_from s' n'
  | S _, EmptyString => None
  end.

(** Scanning loop shared by [Split] and [ReplaceAll] for a non-empty
    pattern: [skip] counts the bytes of a match still to be passed over,
    [cur] is the piece collected since the last match. *)
Fixpoint split_go (sep : string) (skip : nat) (cur s : string) : list string :=
  match s with
  | EmptyString => [cur]
  | String c s' =>
      match skip with
      | S k => split_go sep k cur s'
      | 0 =>
          if String.prefix sep s
          then cur :: split_go sep (String.length sep - 1) "" s'
          else split_go sep 0 (cur ++ String c "") s'
      end
  end.

(** With an empty separator Go splits after each UTF-8 sequence. *)
Fixpoint explode (s : string) : list string :=
  match s with
  | EmptyString => []
  | String c s' => String c "" :: explode s'
  end.

(** [strings.Split(s, sep)] *)
Definition Split (s sep : string) : list string :=
  match sep with
  | EmptyString => explode s
  | _ => split_go sep 0 "" s
  end.

(** [strings.Join(elems, sep)] *)
Definition Join (elems : list string) (sep : string) : string :=
  String.concat sep elems.

(** [strings.ReplaceAll(s, old, new)]: the non-overlapping occurrences of
    [old], found left to right, are replaced by [new]; an empty [old]
    matches before every byte and at the end. *)
Definition ReplaceAll (s old new : string) : string :=
  match old with
  | EmptyString => new ++ String.concat "" (map (λ c, c ++ new) (explode s))
  | _ => Join (split_go old 0 "" s) new
  end.

Definition lower_byte (c : ascii) : ascii :=
  let n := nat_of_ascii c in
  if (65 <=? n)%nat && (n <=? 90)%nat then ascii_of_nat (n + 32) else c.

(** [strings.ToLower(s)], ASCII path: exact on strings whose bytes are all
    below 128.  On other strings Go lower-cases runes and replaces invalid
    bytes, which this byte-wise map does not. *)
Fixpoint ToLower (s : string) : string :=
  match s with
  | EmptyString => EmptyString
  | String c s' => String (lower_byte c) (ToLower s')
  end.

End strings.

(** ** ConvertKey *)

(** One match of the regular expression [[^_]_[^_]]: three bytes, the
    middle one an underscore and the outer ones not. *)
Definition re_match (a b c : ascii) : bool :=
  negb (Ascii.eqb a "_") && Ascii.eqb b "_" && negb (Ascii.eqb c "_").

(** [re.ReplaceAllStringFunc(key, repl)] for [re = [^_]_[^_]]: the
    leftmost match is replaced by [repl] of it and the search resumes
    after the match, so matches never overlap.  A match is taken to be
    three bytes, which is exact on ASCII names; Go's [[^_]] consumes a
    whole rune, so on a name with multi-byte runes the search may resume
    later than here. *)
Fixpoint ReplaceAllStringFunc (key : string) (repl : string → string) : string :=
  match key with
  | String a (String b (String c rest as s2) as s1) =>
      if re_match a b c
      then repl (String a (String b (String c ""))) ++ ReplaceAllStringFunc rest repl
      else String a (ReplaceAllStringFunc s1 repl)
  | String a s1 => String a (ReplaceAllStringFunc s1 repl)
  | EmptyString => EmptyString
  end.

(** replaceUnderscores replaces every underscore by a dot *)
Definition replaceUnderscores (s : string) : string :=
  strings.ReplaceAll s "_" ".".

Definition ConvertKey (key : string) : string :=
  let singleReplaced := ReplaceAllStringFunc key replaceUnderscores in
  let singleTripleReplaced := strings.ReplaceAll singleReplaced "___" "-" in
  strings.ToLower (strings.ReplaceAll singleTripleReplaced "__" "_").

(** ** ConfigSpec and the list helpers *)

Record ConfigSpec := {
  Prefixes : gmap string bool;
  Excludes : list string;
  Renamed  : gmap string string;
  Defaults : gmap string string
}.

(** Contains returns true if slice contains element, and false otherwise. *)
Fixpoint Contains (slice : list string) (element : string) : bool :=
  match slice with
  | [] => false
  | v :: slice' => if String.eqb v element then true else Contains slice' element
  end.

(** Body of the loop of [ListToMap]: an entry is stored only when
    splitting it at [=] gives exactly two parts. *)
Definition ListToMap_body (m : gmap string string) (l : string) : gmap string string :=
  match strings.Split l "=" with
  | [k; v] => <[k := v]> m
  | _ => m
  end.

Definition ListToMap (kvList : list string) : gmap string string :=
  foldl ListToMap_body ∅ kvList.

Definition KvStringToMap (kvString sep : string) : gmap string string :=
  ListToMap (strings.Split kvString sep).

(** ** The runtime: what the functions read from outside

    [Environ] is [os.Environ()], [Now] is [time.Now().String()]; the
    [range_] fields give, for each [range] loop over a map in the source,
    the order in which the runtime presents the entries. *)

Record Runtime := {
  Environ : list string;
  Now : string;
  range_Defaults : gmap string string → list (string * string);
  range_environment : gmap string string → list (string * string);
  (** the inner loop is entered once per [envKey] *)
  range_Prefixes : string → gmap string bool → list (string * bool);
  range_config : gmap string string → list (string * string);
  range_values : gmap string string → list (string * string)
}.

(** The only thing Go promises about these orders. *)
Definition visits_once {V} (order : gmap string V → list (string * V)) : Prop :=
  ∀ m, order m ≡ₚ map_to_list m.

Record go_runtime (rt : Runtime) : Prop := {
  go_Defaults : visits_once (range_Defaults rt);
  go_environment : visits_once (range_environment rt);
  go_Prefixes : ∀ envKey, visits_once (range_Prefixes rt envKey);
  go_config : visits_once (range_config rt);
  go_values : visits_once (range_values rt)
}.

(** A loop whose body may panic. *)
Fixpoint for_each {A S} (body : A → S → option S) (l : list A) (s : S) : option S :=
  match l with
  | [] => Some s
  | x :: l' => s' ← body x s; for_each body l' s'
  end.

Definition splitToMapDefaults (rt : Runtime) (separator defaultValues value : string)
    : gmap string string :=
  foldl (λ values kv, <[kv.1 := kv.2]> values)
        (KvStringToMap defaultValues separator)
        (range_values rt (KvStringToMap value separator)).

(** GetEnvironment returns the current environment as a map. *)
Definition GetEnvironment (rt : Runtime) : gmap string string :=
  ListToMap (Environ rt).

(** ** BuildProperties *)

(** Body of the loop over [spec.Prefixes]. *)
Definition prefix_body (envKey envValue : string) (p : string * bool)
    (config : gmap string string) : option (gmap string string) :=
  let '(prefix, keep) := p in
  if strings.HasPrefix envKey prefix then
    effectiveKey ← (if keep then Some envKey
                    else strings.slice_from envKey (String.length prefix + 1));
    Some (<[ConvertKey effectiveKey := envValue]> config)
  else Some config.

(** Body of the loop over [environment]. *)
Definition env_body (rt : Runtime) (spec : ConfigSpec) (e : string * string)
    (config : gmap string string) : option (gmap string string) :=
  let '(envKey, envValue) := e in
  match Renamed spec !! envKey with
  | Some newKey => Some (<[newKey := envValue]> config)
  | None =>
      if negb (Contains (Excludes spec) envKey)
      then for_each (prefix_body envKey envValue)
                    (range_Prefixes rt envKey (Prefixes spec)) config
      else Some config
  end.

Definition defaults_body (d : string * string) (config : gmap string string)
    : option (gmap string string) :=
  Some (<[d.1 := d.2]> config).

Definition BuildProperties (rt : Runtime) (spec : ConfigSpec)
    (environment : gmap string string) : option (gmap string string) :=
  config ← for_each defaults_body (range_Defaults rt (Defaults spec)) ∅;
  for_each (env_body rt spec) (range_environment rt environment) config.

(** ** writeConfig *)

(** [io.Writer]: a write gives the new state of the sink or fails. *)
Class Writer (W : Type) := Write : W → string → option W.

(** An in-memory sink that accepts every write. *)
Global Instance buffer_Writer : Writer string := λ buf s, Some (buf ++ s).

(** A sink that accepts a given number of writes and then fails. *)
Record quota := { written : string; left : nat }.
Global Instance quota_Writer : Writer quota := λ q s,
  match left q with
  | 0 => None
  | S n => Some {| written := written q ++ s; left := n |}
  end.

Definition LF : string := String (ascii_of_nat 10) "".

Definition formatHeritage (rt : Runtime) : string :=
  "# created by 'ub' from environment variables on " ++ Now rt.

(** [sort.Strings]: ascending, bytes compared as unsigned numbers. *)
Definition sort_Strings (l : list string) : list string :=
  merge_sort String.le l.

Definition writeConfig `{Writer W} (rt : Runtime) (writer : W)
    (config : gmap string string) : option W :=
  writer ← Write writer (formatHeritage rt ++ LF);
  let sortedNames :=
    sort_Strings (foldl (λ names e, (names ++ [e.1])%list) [] (range_config rt config)) in
  for_each (λ n w, Write w (n ++ "=" ++ (config !!! n) ++ LF)) sortedNames writer.

Definition renderConfig `{Writer W} (rt : Runtime) (writer : W)
    (configSpec : ConfigSpec) : option W :=
  config ← BuildProperties rt configSpec (GetEnvironment rt);
  writeConfig rt writer config.

Definition renderConfigViaPrefix `{Writer W} (rt : Runtime) (writer : W)
    (envVarPrefix : string) : option W :=
  let spec := {| Prefixes := {[ envVarPrefix := false ]};
                 Excludes := [];
                 Renamed := ∅;
                 Defaults := ∅ |} in
  config ← BuildProperties rt spec (GetEnvironment rt);
  writeConfig rt writer config.

(** The runtime that presents every map in its canonical order. *)
Definition canonical (environ : list string) (now : string) : Runtime :=
  {| Environ := environ; Now := now;
     range_Defaults := map_to_list; range_environment := map_to_list;
     range_Prefixes := λ _, map_to_list; range_config := map_to_list;
     range_values := map_to_list |}.

(** The runtime that presents every map in the opposite order. *)
Definition reversed (environ : list string) (now : string) : Runtime :=
  {| Environ := environ; Now := now;
     range_Defaults := λ m, reverse (map_to_list m);
     range_environment := λ m, reverse (map_to_list m);
     range_Prefixes := λ _ m, reverse (map_to_list m);
     range_config := λ m, reverse (map_to_list m);
     range_values := λ m, reverse (map_to_list m) |}.

(** ** listenersFromAdvertisedListeners *)

(** Whether [(.*?):] matches at the start of [s]: a colon comes before any
    line feed, since [.] does not match a line feed. *)
Fixpoint colon_ahead (s : string) : bool :=
  match s with
  | EmptyString => false
  | String c s' =>
      if Ascii.eqb c ":" then true
      else if Ascii.eqb c (ascii_of_nat 10) then false
      else colon_ahead s'
  end.

(** Whether the regular expression [://(.*?):] matches at the byte [c]
    followed by [s']. *)
Definition starts_match (c : ascii) (s' : string) : bool :=
  match s' with
  | String b (String d rest) =>
      Ascii.eqb c ":" && Ascii.eqb b "/" && Ascii.eqb d "/" && colon_ahead rest
  | _ => false
  end.

(** [re.ReplaceAllString(listeners, "://0.0.0.0:")] for
    [re = ://(.*?):], as a scan: outside a match a byte is copied unless a
    match starts at it, in which case the replacement is written; inside
    a match the bytes up to its closing colon, the shortest choice for
    [.*?], are passed over. *)
Fixpoint listeners_go (inside : bool) (s : string) : string :=
  match s with
  | EmptyString => EmptyString
  | String c s' =>
      if inside then
        if Ascii.eqb c ":" then listeners_go false s' else listeners_go true s'
      else if starts_match c s' then "://0.0.0.0:" ++ listeners_go true s'
      else String c (listeners_go false s')
  end.

Definition listenersFromAdvertisedListeners (listeners : string) : string :=
  listeners_go false listeners.

(** ** The environment checks

    [os.LookupEnv] is an input: a function from names to the value of the
    variable, if it is set. *)

Definition ensure (LookupEnv : string → option string) (envVar : string) : bool :=
  match LookupEnv envVar with
  | Some _ => true
  | None => false
  end.

Fixpoint ensureAtLeastOne (LookupEnv : string → option string)
    (envVars : list string) : bool :=
  match envVars with
  | [] => false
  | envVar :: envVars' =>
      if ensure LookupEnv envVar then true else ensureAtLeastOne LookupEnv envVars'
  end.

Definition getEnvOrDefault (LookupEnv : string → option string)
    (envVar defaultValue : string) : string :=
  match LookupEnv envVar with
  | Some v => v
  | None => defaultValue
  end.

(** ** parseSecondsDuration *)

Definition digit_of (c : ascii) : option Z :=
  let n := nat_of_ascii c in
  if (48 <=? n)%nat && (n <=? 57)%nat then Some (Z.of_nat (n - 48)) else None.

Fixpoint digits_value (acc : Z) (s : string) : option Z :=
  match s with
  | EmptyString => Some acc
  | String c s' => d ← digit_of c; digits_value (acc * 10 + d)%Z s'
  end.

(** [strconv.Atoi] where [int] has 64 bits: an optional sign, then one or
    more decimal digits and nothing else; an error ([None]) also when the
    number does not fit. *)
Definition Atoi (s : string) : option Z :=
  let '(neg, digits) :=
    match s with
    | String c s' =>
        if Ascii.eqb c "-" then (true, s')
        else if Ascii.eqb c "+" then (false, s')
        else (false, s)
    | EmptyString => (false, s)
    end in
  match digits with
  | EmptyString => None
  | _ =>
      n ← digits_value 0 digits;
      let v := if neg then (- n)%Z else n in
      if ((- 2 ^ 63 <=? v) && (v <=? 2 ^ 63 - 1))%Z then Some v else None
  end.

(** Multiplication of [int64] values wraps around. *)
Definition wrap64 (z : Z) : Z := ((z + 2 ^ 63) mod 2 ^ 64 - 2 ^ 63)%Z.

(** [time.Second], in nanoseconds. *)
Definition Second : Z := 1000000000.

(** The result is a [time.Duration], a number of nanoseconds. *)
Definition parseSecondsDuration (s : string) : option Z :=
  secs ← Atoi s;
  Some (wrap64 (secs * Second)).

(** ** Fixtures of the repository's tests *)

Definition testEnv : gmap string string :=
  {[ "PATH" := "thePath"; "KAFKA_BOOTSTRAP_SERVERS" := "localhost:9092";
     "CONFLUENT_METRICS" := "metricsValue"; "KAFKA_IGNORED" := "ignored" ]}.

Definition onlyDefaultsCS : ConfigSpec :=
  {| Prefixes := ∅; Excludes := []; Renamed := ∅;
     Defaults := {[ "default.property.key" := "default.property.value";
                    "bootstrap.servers" := "unknown" ]} |}.

Definition serverCS : ConfigSpec :=
  {| Prefixes := {[ "KAFKA" := false; "CONFLUENT" := true ]};
     Excludes := ["KAFKA_IGNORED"]; Renamed := ∅;
     Defaults := {[ "default.property.key" := "default.property.value";
                    "bootstrap.servers" := "unknown" ]} |}.

Definition kafkaEnv : gmap string string :=
  {[ "KAFKA_FOO" := "foo"; "KAFKA_FOO_BAR" := "bar"; "KAFKA_IGNORED" := "ignored";
     "KAFKA_WITH__UNDERSCORE" := "with underscore";
     "KAFKA_WITH__UNDERSCORE_AND_MORE" := "with underscore and more";
     "KAFKA_WITH___DASH" := "with dash";
     "KAFKA_WITH___DASH_AND_MORE" := "with dash and more" ]}.

(** ** Notions used in the statements *)

(** One assignment [m[k] = v]. *)
Definition store (m : gmap string string) (kv : string * string) : gmap string string :=
  <[kv.1 := kv.2]> m.

(** Number of occurrences of a byte. *)
Fixpoint count_byte (c : ascii) (s : string) : nat :=
  match s with
  | EmptyString => 0
  | String x s' => (if Ascii.eqb c x then 1 else 0) + count_byte c s'
  end.

(** The key one matching prefix makes an environment variable write; none
    when the prefix does not match or the slice panics. *)
Definition prefix_key (envKey : string) (p : string * bool) : list string :=
  if strings.HasPrefix envKey p.1 then
    match (if p.2 then Some envKey
           else strings.slice_from envKey (String.length p.1 + 1)) with
    | Some effectiveKey => [ConvertKey effectiveKey]
    | None => []
    end
  else [].

(** The keys of the result that an environment variable writes. *)
Definition output_keys (spec : ConfigSpec) (envKey : string) : list string :=
  match Renamed spec !! envKey with
  | Some newKey => [newKey]
  | None =>
      if negb (Contains (Excludes spec) envKey)
      then flat_map (prefix_key envKey) (map_to_list (Prefixes spec))
      else []
  end.

(** Two different variables with different values write a common key. *)
Definition collide (spec : ConfigSpec) (e1 e2 : string * string) : bool :=
  negb (String.eqb e1.1 e2.1) && negb (String.eqb e1.2 e2.2)
  && existsb (λ k, bool_decide (k ∈ output_keys spec e2.1)) (output_keys spec e1.1).

Definition collision_free (spec : ConfigSpec) (environment : gmap string string) : bool :=
  forallb (λ e1, forallb (λ e2, negb (collide spec e1 e2)) (map_to_list environment))
          (map_to_list environment).

(** The iteration for one prefix does not panic. *)
Definition prefix_ok (envKey : string) (p : string * bool) : bool :=
  if strings.HasPrefix envKey p.1 then
    if p.2 then true
    else bool_decide (is_Some (strings.slice_from envKey (String.length p.1 + 1)))
  else true.

(** The iteration for one environment variable does not panic. *)
Definition env_ok (spec : ConfigSpec) (envKey : string) : bool :=
  match Renamed spec !! envKey with
  | Some _ => true
  | None =>
      if negb (Contains (Excludes spec) envKey)
      then forallb (prefix_ok envKey) (map_to_list (Prefixes spec))
      else true
  end.

(** The assignments [m[k] = v] for the keys of a list. *)
Definition store_all (v : string) (m : gmap string string) (keys : list string)
    : gmap string string :=
  foldl (λ m k, <[k := v]> m) m keys.

(** What the iteration for one environment variable amounts to. *)
Definition env_step (spec : ConfigSpec) (e : string * string)
    (config : gmap string string) : option (gmap string string) :=
  if env_ok spec e.1 then Some (store_all e.2 config (output_keys spec e.1)) else None.

(** Reading a rendered file back, as the round trip is stated: the first
    line is the heritage comment, every other line is parsed as a
    [key=value] pair by [ListToMap]. *)
Definition parseProperties (output : string) : gmap string string :=
  ListToMap (tail (strings.Split output LF)).

(** Neither [=] nor a line feed occurs in the key or in the value. *)
Definition plain_entry (kv : string * string) : bool :=
  forallb (λ s, Nat.eqb (count_byte "=" s) 0 && Nat.eqb (count_byte (ascii_of_nat 10) s) 0)
          [kv.1; kv.2].

(** The line [writeConfig] prints for the key [n]. *)
Definition property_line (config : gmap string string) (n : string) : string :=
  n ++ "=" ++ (config !!! n) ++ LF.

(** The lines printed for a list of keys, one after the other. *)
Definition property_lines (config : gmap string string) (names : list string) : string :=
  foldr (λ n rest, property_line config n ++ rest) "" names.

(** An upper-case ASCII letter. *)
Definition is_upper (c : ascii) : bool :=
  (65 <=? nat_of_ascii c)%nat && (nat_of_ascii c <=? 90)%nat.

Fixpoint has_upper (s : string) : bool :=
  match s with
  | EmptyString => false
  | String c s' => is_upper c || has_upper s'
  end.

(** * Properties *)

(** ** Loops *)

Section for_each.
Context {A S : Type} (body : A → S → option S).

Lemma for_each_app l1 l2 s :
  for_each body (l1 ++ l2)%list s = for_each body l1 s ≫= for_each body l2.
Proof.
  revert s. induction l1 as [|x l1 IH]; intros s; simpl; [done|].
  destruct (body x s); simpl; auto.
Qed.

(** A body that never panics makes the loop a left fold. *)
Lemma for_each_total (f : S → A → S) l s :
  (∀ x s, body x s = Some (f s x)) → for_each body l s = Some (foldl f s l).
Proof.
  intros Hf. revert s. induction l as [|x l IH]; intros s; simpl; [done|].
  rewrite Hf. simpl. apply IH.
Qed.

(** An iteration that panics in every state makes the loop panic. *)
Lemma for_each_panic l x s :
  x ∈ l → (∀ s, body x s = None) → for_each body l s = None.
Proof.
  intros Hx Hp. revert s. induction l as [|y l IH]; intros s.
  - by apply elem_of_nil in Hx.
  - simpl. apply elem_of_cons in Hx as [<-|Hx].
    + by rewrite Hp.
    + destruct (body y s); simpl; auto.
Qed.

(** Iterations that commute pairwise can be visited in any order. *)
Lemma for_each_Permutation l1 l2 :
  l1 ≡ₚ l2 →
  (∀ x y s, x ∈ l1 → y ∈ l1 → body x s ≫= body y = body y s ≫= body x) →
  ∀ s, for_each body l1 s = for_each body l2 s.
Proof.
  induction 1 as [|x l1 l2 _ IH|x y l|l1 l2 l3 Hl12 IH _ IH']; intros Hc s.
  - done.
  - simpl. destruct (body x s) as [s'|]; simpl; [|done].
    apply IH. intros; apply Hc; by apply elem_of_cons; right.
  - simpl.
    assert (body y s ≫= body x = body x s ≫= body y) as Hxy.
    { apply Hc; set_solver. }
    destruct (body y s) as [sy|], (body x s) as [sx|]; simpl in *.
    + by rewrite Hxy.
    + by rewrite Hxy.
    + by rewrite <-Hxy.
    + done.
  - rewrite IH by done. apply IH'.
    intros x y s' Hx Hy. apply Hc; by rewrite Hl12.
Qed.
End for_each.

Lemma for_each_ext {A S} (body1 body2 : A → S → option S) l s :
  (∀ x s, x ∈ l → body1 x s = body2 x s) → for_each body1 l s = for_each body2 l s.
Proof.
  revert s. induction l as [|x l IH]; intros s Hb; simpl; [done|].
  rewrite Hb by set_solver. destruct (body2 x s); simpl; [|done].
  apply IH. intros; apply Hb; set_solver.
Qed.

(** ** Storing a list of entries in a map *)

(** Entries with distinct keys, stored one after the other, land in the
    map whatever their order. *)
Lemma foldl_store_NoDup (l : list (string * string)) (m : gmap string string) :
  NoDup l.*1 → foldl store m l = list_to_map l ∪ m.
Proof.
  revert m. induction l as [|[k v] l IH]; intros m Hnd; simpl.
  - by rewrite (left_id_L ∅ (∪)).
  - rewrite fmap_cons in Hnd. apply NoDup_cons in Hnd as [Hk Hnd].
    rewrite IH by done. unfold store; simpl. rewrite <-insert_union_l.
    symmetry. apply insert_union_r. by apply not_elem_of_list_to_map.
Qed.

Lemma foldl_store_map_to_list (l : list (string * string)) (d m : gmap string string) :
  l ≡ₚ map_to_list d → foldl store m l = d ∪ m.
Proof.
  intros Hl. rewrite foldl_store_NoDup.
  - f_equal. rewrite <-(list_to_map_to_list d).
    apply list_to_map_proper; [|done]. rewrite Hl. apply NoDup_fst_map_to_list.
  - rewrite Hl. apply NoDup_fst_map_to_list.
Qed.

(** ** Byte strings *)

Lemma append_cons c s t : String c s ++ t = String c (s ++ t).
Proof. reflexivity. Qed.

Lemma append_nil_r s : s ++ "" = s.
Proof. induction s as [|c s IH]; [done|]. by rewrite append_cons, IH. Qed.

Lemma append_assoc s t u : (s ++ t) ++ u = s ++ (t ++ u).
Proof. induction s as [|c s IH]; [done|]. by rewrite !append_cons, IH. Qed.

Lemma count_byte_app c s t : count_byte c (s ++ t) = count_byte c s + count_byte c t.
Proof.
  induction s as [|x s IH]; [done|].
  rewrite append_cons. simpl. rewrite IH. lia.
Qed.

(** A string in which [c] occurs starts with a [c]-free piece followed
    by [c]. *)
Lemma first_occurrence c s :
  count_byte c s ≠ 0 →
  ∃ a rest, s = a ++ String c rest ∧ count_byte c a = 0.
Proof.
  induction s as [|x s IH]; simpl; [done|].
  destruct (Ascii.eqb_spec c x) as [->|Hcx]; intros Hn.
  - by exists "", s.
  - destruct IH as (a & rest & -> & Ha); [done|].
    exists (String x a), rest. split; [done|]. simpl.
    by destruct (Ascii.eqb_spec c x).
Qed.

(** ** Splitting at a single byte *)

Section split_byte.
Variable c : ascii.
Local Abbreviation sep := (String c "").

Lemma split_go_cons cur x s :
  strings.split_go sep 0 cur (String x s) =
    if Ascii.eqb c x then cur :: strings.split_go sep 0 "" s
    else strings.split_go sep 0 (cur ++ String x "") s.
Proof.
  simpl. destruct (Ascii.eqb_spec c x) as [Hcx|Hcx]; destruct (ascii_dec c x);
    try done; by destruct s.
Qed.

Lemma split_go_clean cur a :
  count_byte c a = 0 → strings.split_go sep 0 cur a = [cur ++ a].
Proof.
  revert cur. induction a as [|x a IH]; intros cur Ha.
  - by rewrite append_nil_r.
  - rewrite split_go_cons. simpl in Ha.
    destruct (Ascii.eqb c x); [done|].
    rewrite IH by done. by rewrite append_assoc.
Qed.

Lemma split_go_first cur a rest :
  count_byte c a = 0 →
  strings.split_go sep 0 cur (a ++ String c rest) =
    (cur ++ a) :: strings.split_go sep 0 "" rest.
Proof.
  revert cur. induction a as [|x a IH]; intros cur Ha.
  - change ("" ++ String c rest) with (String c rest).
    by rewrite split_go_cons, Ascii.eqb_refl, append_nil_r.
  - rewrite append_cons, split_go_cons. simpl in Ha.
    destruct (Ascii.eqb c x); [done|].
    rewrite IH by done. by rewrite append_assoc.
Qed.

Lemma split_go_length cur s :
  List.length (strings.split_go sep 0 cur s) = S (count_byte c s).
Proof.
  revert cur. induction s as [|x s IH]; intros cur; [done|].
  rewrite split_go_cons. simpl count_byte.
  destruct (Ascii.eqb c x); simpl; by rewrite IH.
Qed.

Lemma Split_clean a : count_byte c a = 0 → strings.Split a sep = [a].
Proof. apply (split_go_clean ""). Qed.

Lemma Split_first a rest :
  count_byte c a = 0 →
  strings.Split (a ++ String c rest) sep = a :: strings.Split rest sep.
Proof. apply (split_go_first ""). Qed.

Lemma Split_length s : List.length (strings.Split s sep) = S (count_byte c s).
Proof. apply split_go_length. Qed.

(** Exactly two parts: the string is [k], the separator, [v], and the
    separator occurs in neither. *)
Lemma Split_two s k v :
  strings.Split s sep = [k; v] ↔
  s = k ++ String c v ∧ count_byte c k = 0 ∧ count_byte c v = 0.
Proof.
  split.
  - intros Hs.
    assert (count_byte c s = 1) as Hc.
    { pose proof (Split_length s) as Hl. rewrite Hs in Hl. simpl in Hl. lia. }
    destruct (first_occurrence c s) as (a & rest & -> & Ha); [lia|].
    rewrite Split_first in Hs by done.
    rewrite count_byte_app in Hc. simpl in Hc. rewrite Ascii.eqb_refl in Hc.
    rewrite Split_clean in Hs by lia.
    injection Hs as -> ->. repeat split; [done|lia].
  - intros (-> & Hk & Hv). by rewrite Split_first, Split_clean.
Qed.
End split_byte.

(** ** ListToMap *)

Lemma ListToMap_app xs ys :
  ListToMap (xs ++ ys)%list = foldl ListToMap_body (ListToMap xs) ys.
Proof. apply foldl_app. Qed.

Lemma ListToMap_body_dropped m entry :
  count_byte "=" entry ≠ 1 → ListToMap_body m entry = m.
Proof.
  intros Hn. unfold ListToMap_body.
  pose proof (Split_length "=" entry) as Hl.
  destruct (strings.Split entry "=") as [|k [|v [|? ?]]]; try done.
  simpl in Hl. lia.
Qed.

Lemma ListToMap_body_kept m k v :
  count_byte "=" k = 0 → count_byte "=" v = 0 →
  ListToMap_body m (k ++ "=" ++ v) = <[k := v]> m.
Proof.
  intros Hk Hv. unfold ListToMap_body.
  by rewrite (proj2 (Split_two "=" (k ++ "=" ++ v) k v)).
Qed.

Lemma ListToMap_dropped before entry after :
  count_byte "=" entry ≠ 1 →
  ListToMap (before ++ entry :: after)%list = ListToMap (before ++ after)%list.
Proof.
  intros Hn. rewrite !ListToMap_app. simpl. by rewrite ListToMap_body_dropped.
Qed.

Lemma ListToMap_kept before k v :
  count_byte "=" k = 0 → count_byte "=" v = 0 →
  ListToMap (before ++ [(k ++ "=" ++ v)%string])%list = <[k := v]> (ListToMap before).
Proof.
  intros Hk Hv. rewrite ListToMap_app. simpl. by apply ListToMap_body_kept.
Qed.

(** Every entry of the map comes from a list entry with exactly one [=]. *)
Lemma ListToMap_lookup_Some kvList k v :
  ListToMap kvList !! k = Some v →
  (k ++ "=" ++ v) ∈ kvList ∧ count_byte "=" k = 0 ∧ count_byte "=" v = 0.
Proof.
  induction kvList as [|entry kvList IH] using rev_ind; [done|].
  rewrite ListToMap_app. simpl. unfold ListToMap_body at 1.
  assert (ListToMap kvList !! k = Some v →
          (k ++ "=" ++ v) ∈ (kvList ++ [entry])%list
          ∧ count_byte "=" k = 0 ∧ count_byte "=" v = 0) as Hold.
  { intros Hl. destruct (IH Hl) as (? & ? & ?).
    split; [apply elem_of_app; by left|done]. }
  destruct (strings.Split entry "=") as [|k' [|v' [|? ?]]] eqn:Hs; try done.
  apply Split_two in Hs as (-> & Hk' & Hv').
  destruct (decide (k' = k)) as [->|Hne].
  - rewrite lookup_insert_eq. intros [= ->].
    split; [apply elem_of_app; right; apply elem_of_cons; by left|done].
  - by rewrite lookup_insert_ne.
Qed.

(** ** ConvertKey: the examples *)

(** C3. ConvertKey maps the six literal names of the specification (and of
    TestConvertKey) to the six keys given there. *)
Theorem ConvertKey_examples :
  ConvertKey "KEY" = "key"
  ∧ ConvertKey "KEY_FOO" = "key.foo"
  ∧ ConvertKey "KEY__UNDERSCORE" = "key_underscore"
  ∧ ConvertKey "KEY_WITH__UNDERSCORE_AND__MORE" = "key.with_underscore.and_more"
  ∧ ConvertKey "KEY___DASH" = "key-dash"
  ∧ ConvertKey "KEY_WITH___DASH_AND___MORE__UNDERSCORE"
      = "key.with-dash.and-more_underscore".
Proof. repeat split; vm_compute; reflexivity. Qed.

(** C2. In A_B_C both underscores are single underscores between
    non-underscore bytes, yet ConvertKey turns only the first into a dot:
    the match of A_B consumes the B that the second underscore would need
    as its left neighbour.  The result is a.b_c, not a.b.c. *)
Theorem ConvertKey_shared_neighbour :
  ReplaceAllStringFunc "A_B_C" replaceUnderscores = "A.B_C"
  ∧ ConvertKey "A_B_C" = "a.b_c"
  ∧ ConvertKey "KAFKA_A_B" = "kafka.a_b"
  ∧ ConvertKey "X_Y_Z_W" = "x.y_z.w".
Proof. repeat split; vm_compute; reflexivity. Qed.

(** C10. ListToMap keeps a list entry exactly when splitting it at [=]
    gives two parts, that is when it holds one [=]: an entry with none is
    dropped and so is an entry with two or more.  The snapshot built by
    GetEnvironment and the maps built by KvStringToMap therefore hold only
    pairs whose value has no [=]; a variable whose only definition has a
    value containing [=] is absent from the snapshot. *)
Theorem ListToMap_keeps_exactly_two_parts :
  (∀ entry, List.length (strings.Split entry "=") = 2 ↔ count_byte "=" entry = 1)
  ∧ (∀ before entry after,
       List.length (strings.Split entry "=") ≠ 2 →
       ListToMap (before ++ entry :: after)%list = ListToMap (before ++ after)%list)
  ∧ (∀ before k v,
       count_byte "=" k = 0 → count_byte "=" v = 0 →
       ListToMap (before ++ [(k ++ "=" ++ v)%string])%list = <[k := v]> (ListToMap before))
  ∧ (∀ rt name value,
       GetEnvironment rt !! name = Some value →
       (name ++ "=" ++ value) ∈ Environ rt
       ∧ count_byte "=" name = 0 ∧ count_byte "=" value = 0)
  ∧ (∀ rt name,
       (∀ value, (name ++ "=" ++ value) ∈ Environ rt → count_byte "=" value ≠ 0) →
       GetEnvironment rt !! name = None)
  ∧ (∀ kvString sep name value,
       KvStringToMap kvString sep !! name = Some value →
       (name ++ "=" ++ value) ∈ strings.Split kvString sep
       ∧ count_byte "=" name = 0 ∧ count_byte "=" value = 0).
Proof.
  assert (∀ entry, List.length (strings.Split entry "=") = 2 ↔ count_byte "=" entry = 1)
    as Htwo by (intros entry; rewrite Split_length; lia).
  split_and!.
  - done.
  - intros before entry after Hn. apply ListToMap_dropped. by rewrite <-Htwo.
  - apply ListToMap_kept.
  - intros rt name value. apply ListToMap_lookup_Some.
  - intros rt name Hv.
    destruct (GetEnvironment rt !! name) as [value|] eqn:Hl; [|done].
    apply ListToMap_lookup_Some in Hl as (Hin & _ & Hc). by apply Hv in Hin.
  - intros kvString sep name value. apply ListToMap_lookup_Some.
Qed.

Lemma ListToMap_keeps_exactly_two_parts_witness :
  List.length (strings.Split "X=a=b" "=") ≠ 2
  ∧ ListToMap (["PATH=/bin"] ++ "X=a=b" :: ["HOME=/root"])%list
    = ListToMap (["PATH=/bin"] ++ ["HOME=/root"])%list.
Proof.
  split.
  - vm_compute. lia.
  - apply (proj1 (proj2 ListToMap_keeps_exactly_two_parts)). vm_compute. lia.
Defined.

(** ** splitToMapDefaults *)

(** C8. splitToMapDefaults parses both lists with KvStringToMap, that is
    splits them at the separator and keeps the [key=value] entries,
    dropping every entry without [=]; the result is the union of the two
    maps in which an entry of the value list overrides the entry of the
    defaults list with the same key.  For the separator [,], the defaults
    [a=1,b=2] and the values [b=3] it is the map a:1, b:3. *)
Theorem splitToMapDefaults_override_union rt separator defaultsList valueList :
  visits_once (range_values rt) →
  splitToMapDefaults rt separator defaultsList valueList
    = KvStringToMap valueList separator ∪ KvStringToMap defaultsList separator
  ∧ (∀ k, splitToMapDefaults rt separator defaultsList valueList !! k
          = match KvStringToMap valueList separator !! k with
            | Some v => Some v
            | None => KvStringToMap defaultsList separator !! k
            end)
  ∧ (∀ s, KvStringToMap s separator = ListToMap (strings.Split s separator))
  ∧ (∀ before entry after,
       count_byte "=" entry = 0 →
       ListToMap (before ++ entry :: after)%list = ListToMap (before ++ after)%list)
  ∧ (∀ before k v,
       count_byte "=" k = 0 → count_byte "=" v = 0 →
       ListToMap (before ++ [(k ++ "=" ++ v)%string])%list = <[k := v]> (ListToMap before))
  ∧ splitToMapDefaults rt "," "a=1,b=2" "b=3" = {[ "a" := "1"; "b" := "3" ]}.
Proof.
  intros Hrt.
  assert (∀ sep d v, splitToMapDefaults rt sep d v
                     = KvStringToMap v sep ∪ KvStringToMap d sep) as Hu.
  { intros sep d v. unfold splitToMapDefaults.
    apply (foldl_store_map_to_list _ _ _ (Hrt _)). }
  split_and!.
  - apply Hu.
  - intros k. rewrite Hu, lookup_union.
    by destruct (KvStringToMap valueList separator !! k),
                (KvStringToMap defaultsList separator !! k).
  - done.
  - intros before entry after Hn. apply ListToMap_dropped. lia.
  - apply ListToMap_kept.
  - rewrite Hu. by vm_compute.
Qed.

Lemma splitToMapDefaults_override_union_witness :
  visits_once (range_values (canonical [] ""))
  ∧ splitToMapDefaults (canonical [] "") "," "a=1,b=2" "b=3"
    = KvStringToMap "b=3" "," ∪ KvStringToMap "a=1,b=2" ",".
Proof.
  assert (visits_once (range_values (canonical [] ""))) as Hrt
    by (intros m; reflexivity).
  split; [exact Hrt|].
  exact (proj1 (splitToMapDefaults_override_union
                  (canonical [] "") "," "a=1,b=2" "b=3" Hrt)).
Defined.

(** ** BuildProperties: one environment variable *)

Lemma store_all_app v m ks1 ks2 :
  store_all v m (ks1 ++ ks2)%list = store_all v (store_all v m ks1) ks2.
Proof. apply foldl_app. Qed.

Lemma store_all_lookup v keys m key :
  store_all v m keys !! key = if bool_decide (key ∈ keys) then Some v else m !! key.
Proof.
  revert m. induction keys as [|k keys IH]; intros m.
  - rewrite bool_decide_eq_false_2; [done|apply not_elem_of_nil].
  - change (store_all v m (k :: keys)) with (store_all v (<[k := v]> m) keys).
    rewrite IH. destruct (decide (key ∈ keys)) as [Hin|Hin].
    + rewrite !bool_decide_eq_true_2; [done|by apply elem_of_cons; right|done].
    + rewrite (bool_decide_eq_false_2 (key ∈ keys)) by done.
      destruct (decide (k = key)) as [->|Hne].
      * rewrite lookup_insert_eq, bool_decide_eq_true_2; [done|by apply elem_of_cons; left].
      * rewrite lookup_insert_ne, bool_decide_eq_false_2; [done| |done].
        intros [?|?]%elem_of_cons; congruence.
Qed.

Lemma forallb_Permutation {A} (f : A → bool) l1 l2 :
  l1 ≡ₚ l2 → forallb f l1 = forallb f l2.
Proof.
  induction 1 as [|x l1 l2 _ IH|x y l|l1 l2 l3 _ IH _ IH']; simpl.
  - done.
  - by rewrite IH.
  - by destruct (f x), (f y).
  - congruence.
Qed.

Lemma forallb_false_elem {A} (f : A → bool) l x :
  x ∈ l → f x = false → forallb f l = false.
Proof.
  induction 1 as [x l|x y l _ IH]; simpl; intros Hf.
  - by rewrite Hf.
  - rewrite IH by done. apply andb_false_r.
Qed.

Lemma prefix_body_closed envKey envValue p config :
  prefix_body envKey envValue p config =
    if prefix_ok envKey p
    then Some (store_all envValue config (prefix_key envKey p)) else None.
Proof.
  destruct p as [prefix keep]. unfold prefix_body, prefix_ok, prefix_key. simpl.
  destruct (strings.HasPrefix envKey prefix); [|done].
  destruct keep; [done|].
  by destruct (strings.slice_from envKey (String.length prefix + 1)).
Qed.

Lemma prefix_loop_closed envKey envValue ps config :
  for_each (prefix_body envKey envValue) ps config =
    if forallb (prefix_ok envKey) ps
    then Some (store_all envValue config (flat_map (prefix_key envKey) ps)) else None.
Proof.
  revert config. induction ps as [|p ps IH]; intros config; simpl; [done|].
  rewrite prefix_body_closed. destruct (prefix_ok envKey p); simpl; [|done].
  rewrite IH. destruct (forallb (prefix_ok envKey) ps); [|done].
  by rewrite store_all_app.
Qed.

(** Whatever the order of the prefixes, the iteration for a variable
    either panics or stores the variable's value under its output keys. *)
Lemma env_body_closed rt spec e config :
  range_Prefixes rt e.1 (Prefixes spec) ≡ₚ map_to_list (Prefixes spec) →
  env_body rt spec e config = env_step spec e config.
Proof.
  destruct e as [envKey envValue]. simpl. intros Hp.
  unfold env_body, env_step, env_ok, output_keys. simpl.
  destruct (Renamed spec !! envKey) as [newKey|]; [done|].
  destruct (negb (Contains (Excludes spec) envKey)); [|done].
  rewrite prefix_loop_closed, (forallb_Permutation _ _ _ Hp).
  destruct (forallb (prefix_ok envKey) (map_to_list (Prefixes spec))); [|done].
  f_equal. apply map_eq. intros key. rewrite !store_all_lookup.
  rewrite (bool_decide_ext
             (key ∈ flat_map (prefix_key envKey)
                             (range_Prefixes rt envKey (Prefixes spec)))
             (key ∈ flat_map (prefix_key envKey) (map_to_list (Prefixes spec))));
    [done|].
  by rewrite (Permutation_flat_map (prefix_key envKey) Hp).
Qed.

(** Two iterations commute when they store the same value or write
    different keys. *)
Lemma env_step_comm spec e1 e2 config :
  (e1.2 = e2.2
   ∨ ∀ key, key ∈ output_keys spec e1.1 → key ∉ output_keys spec e2.1) →
  env_step spec e1 config ≫= env_step spec e2
  = env_step spec e2 config ≫= env_step spec e1.
Proof.
  intros Hd. unfold env_step.
  destruct (env_ok spec e1.1), (env_ok spec e2.1); simpl; try done.
  f_equal. apply map_eq. intros key. rewrite !store_all_lookup.
  destruct (decide (key ∈ output_keys spec e1.1)) as [H1|H1],
           (decide (key ∈ output_keys spec e2.1)) as [H2|H2];
    rewrite ?(bool_decide_eq_true_2 _ H1), ?(bool_decide_eq_true_2 _ H2),
            ?(bool_decide_eq_false_2 _ H1), ?(bool_decide_eq_false_2 _ H2);
    try done.
  destruct Hd as [->|Hd]; [done|]. by apply Hd in H1.
Qed.

Lemma collide_false spec e1 e2 :
  collide spec e1 e2 = false →
  e1.1 = e2.1 ∨ e1.2 = e2.2
  ∨ ∀ key, key ∈ output_keys spec e1.1 → key ∉ output_keys spec e2.1.
Proof.
  unfold collide. intros Hc.
  destruct (String.eqb_spec e1.1 e2.1) as [|Hn]; [by left|].
  destruct (String.eqb_spec e1.2 e2.2) as [|Hv]; [by right; left|].
  right; right. intros key H1 H2. simpl in Hc.
  assert (existsb (λ k, bool_decide (k ∈ output_keys spec e2.1))
                  (output_keys spec e1.1) = true); [|congruence].
  apply existsb_exists. exists key. split; [by apply list_elem_of_In|].
  by apply bool_decide_eq_true_2.
Qed.

Lemma collision_free_spec spec environment e1 e2 :
  collision_free spec environment = true →
  e1 ∈ map_to_list environment → e2 ∈ map_to_list environment →
  collide spec e1 e2 = false.
Proof.
  unfold collision_free. intros Hf H1 H2.
  rewrite forallb_forall in Hf. apply list_elem_of_In, Hf in H1.
  rewrite forallb_forall in H1. apply list_elem_of_In, H1 in H2.
  by apply negb_true_iff.
Qed.

(** ** BuildProperties: the whole run *)

Lemma defaults_loop rt spec :
  visits_once (range_Defaults rt) →
  for_each defaults_body (range_Defaults rt (Defaults spec)) ∅ = Some (Defaults spec).
Proof.
  intros Hrt. rewrite (for_each_total _ store) by done. f_equal.
  rewrite (foldl_store_map_to_list _ _ _ (Hrt _)). apply (right_id_L ∅ (∪)).
Qed.

(** The run starts from the defaults and performs one [env_step] per
    entry of the environment, in the order chosen for [environment]. *)
Lemma BuildProperties_closed rt spec environment :
  go_runtime rt →
  BuildProperties rt spec environment =
    for_each (env_step spec) (range_environment rt environment) (Defaults spec).
Proof.
  intros [HD _ HP _ _]. unfold BuildProperties.
  rewrite defaults_loop by done. simpl.
  apply for_each_ext. intros e config _. apply env_body_closed, HP.
Qed.

Lemma env_step_Some spec e config :
  env_ok spec e.1 = true →
  env_step spec e config = Some (store_all e.2 config (output_keys spec e.1)).
Proof. unfold env_step. by intros ->. Qed.

Lemma env_step_None spec e config :
  env_ok spec e.1 = false → env_step spec e config = None.
Proof. unfold env_step. by intros ->. Qed.

Lemma env_loop_is_Some spec l config :
  is_Some (for_each (env_step spec) l config) ↔ Forall (λ e, env_ok spec e.1 = true) l.
Proof.
  revert config. induction l as [|e l IH]; intros config; simpl.
  - split; [by constructor|by eexists].
  - rewrite Forall_cons. destruct (env_ok spec e.1) eqn:Hok.
    + rewrite env_step_Some by done. simpl. rewrite IH. tauto.
    + rewrite env_step_None by done. simpl.
      split; [by intros [? ?]|by intros [? _]].
Qed.

(** The value found under [key] after the loop, when all the variables
    that write [key] carry the value [v]. *)
Lemma env_loop_lookup spec l config props key v :
  for_each (env_step spec) l config = Some props →
  (∀ e, e ∈ l → key ∈ output_keys spec e.1 → e.2 = v) →
  props !! key =
    if bool_decide (Exists (λ e, key ∈ output_keys spec e.1) l)
    then Some v else config !! key.
Proof.
  revert config. induction l as [|e l IH]; intros config; cbn [for_each].
  - intros [= <-] _. case_bool_decide as Hex; [by apply Exists_nil in Hex|done].
  - destruct (env_ok spec e.1) eqn:Hok;
      [rewrite env_step_Some by done|by rewrite env_step_None].
    cbn [mbind option_bind]. intros Hl Hv.
    rewrite (IH _ Hl) by (intros; apply Hv; [by apply elem_of_cons; right|done]).
    rewrite store_all_lookup.
    rewrite (bool_decide_ext _ _ (Exists_cons (λ e, key ∈ output_keys spec e.1) e l)).
    repeat case_bool_decide; try tauto.
    f_equal. apply Hv; [by apply elem_of_cons; left|done].
Qed.

Lemma prefix_refl s : String.prefix s s = true.
Proof. induction s as [|c s IH]; simpl; [done|]. by destruct (ascii_dec c c). Qed.

Lemma slice_from_beyond s n :
  (String.length s < n)%nat → strings.slice_from s n = None.
Proof.
  revert n. induction s as [|c s IH]; intros [|n] Hn; simpl in *; try lia; [done|].
  apply IH. lia.
Qed.

Lemma slice_from_within s n :
  (n ≤ String.length s)%nat → is_Some (strings.slice_from s n).
Proof.
  revert n. induction s as [|c s IH]; intros [|n] Hn; simpl in *;
    try lia; try by eexists.
  apply IH. lia.
Qed.

Lemma go_runtime_canonical environ now : go_runtime (canonical environ now).
Proof. by split; intros; intros m. Qed.

Lemma go_runtime_reversed environ now : go_runtime (reversed environ now).
Proof. split; intros; intros m; simpl; apply reverse_Permutation. Qed.

Lemma prefix_length p s :
  String.prefix p s = true → s = p ∨ (String.length p + 1 ≤ String.length s)%nat.
Proof.
  revert s. induction p as [|a p IH]; intros [|b s]; simpl; try done.
  - by left.
  - intros _. right. lia.
  - destruct (ascii_dec a b) as [->|]; [|done].
    intros [->|Hl]%IH; [by left|right; lia].
Qed.

(** The only iteration over a prefix that panics: the name is the prefix
    itself and the prefix is not kept. *)
Lemma prefix_ok_false envKey prefix keep :
  prefix_ok envKey (prefix, keep) = false ↔ prefix = envKey ∧ keep = false.
Proof.
  unfold prefix_ok, strings.HasPrefix. simpl. split.
  - destruct (String.prefix prefix envKey) eqn:Hp; [|done].
    destruct keep; [done|]. intros Hs%bool_decide_eq_false.
    apply prefix_length in Hp as [->|Hl]; [done|].
    by apply slice_from_within in Hl.
  - intros [-> ->]. rewrite prefix_refl.
    apply bool_decide_eq_false_2. rewrite slice_from_beyond by lia.
    apply is_Some_None.
Qed.

Lemma forallb_false_inv {A} (f : A → bool) l :
  forallb f l = false → ∃ x, x ∈ l ∧ f x = false.
Proof.
  induction l as [|x l IH]; simpl; [done|].
  destruct (f x) eqn:Hx; simpl.
  - intros (y & Hy & Hf)%IH. exists y. split; [by apply elem_of_cons; right|done].
  - intros _. exists x. split; [by apply elem_of_cons; left|done].
Qed.

Lemma env_ok_false spec envKey :
  env_ok spec envKey = false ↔
  Renamed spec !! envKey = None
  ∧ Contains (Excludes spec) envKey = false
  ∧ Prefixes spec !! envKey = Some false.
Proof.
  unfold env_ok. destruct (Renamed spec !! envKey) as [newKey|].
  { split; [done|by intros [? _]]. }
  destruct (Contains (Excludes spec) envKey); simpl.
  { split; [done|by intros (_ & ? & _)]. }
  split.
  - intros ([prefix keep] & Hin & Hp)%forallb_false_inv.
    apply prefix_ok_false in Hp as [-> ->].
    by apply elem_of_map_to_list in Hin.
  - intros (_ & _ & Hp). apply (forallb_false_elem _ _ (envKey, false)).
    + by apply elem_of_map_to_list.
    + by apply prefix_ok_false.
Qed.

(** C1. BuildProperties panics on well-formed inputs: it panics exactly
    when some variable that is neither renamed nor excluded has a name
    that is itself a prefix with keepPrefix false, since the slice
    [envKey[len(prefix)+1:]] then starts one byte beyond the end of the
    name.  The iteration orders play no part.  (A longer name without a
    separator does not panic: its first byte after the prefix is cut
    off.) *)
Theorem BuildProperties_panics_on_bare_prefix rt spec environment :
  go_runtime rt →
  BuildProperties rt spec environment = None ↔
  ∃ name value,
    environment !! name = Some value
    ∧ Renamed spec !! name = None
    ∧ Contains (Excludes spec) name = false
    ∧ Prefixes spec !! name = Some false.
Proof.
  intros Hrt. rewrite BuildProperties_closed by done.
  rewrite eq_None_not_Some, env_loop_is_Some. split.
  - intros ([name value] & Hin & Hok)%not_Forall_Exists%Exists_exists; [|apply _].
    exists name, value. split.
    + rewrite (go_environment _ Hrt environment) in Hin.
      by apply elem_of_map_to_list in Hin.
    + apply env_ok_false. simpl in Hok. by destruct (env_ok spec name).
  - intros (name & value & He & Hbad) Hall.
    rewrite Forall_forall in Hall. specialize (Hall (name, value)).
    apply env_ok_false in Hbad. simpl in Hall. rewrite Hbad in Hall.
    assert (false = true); [|done]. apply Hall.
    rewrite (go_environment _ Hrt environment). by apply elem_of_map_to_list.
Qed.

Lemma BuildProperties_panics_on_bare_prefix_witness :
  BuildProperties (canonical [] "")
    {| Prefixes := {[ "KAFKA" := false ]}; Excludes := []; Renamed := ∅; Defaults := ∅ |}
    {[ "KAFKA" := "x" ]} = None.
Proof.
  apply (BuildProperties_panics_on_bare_prefix (canonical [] "")).
  - apply go_runtime_canonical.
  - exists "KAFKA", "x". repeat split.
Defined.

(** The order of the prefixes and of the defaults never shows. *)
Lemma BuildProperties_same_environment_order rt1 rt2 spec environment :
  go_runtime rt1 → go_runtime rt2 →
  range_environment rt1 environment = range_environment rt2 environment →
  BuildProperties rt1 spec environment = BuildProperties rt2 spec environment.
Proof.
  intros Hrt1 Hrt2 He. rewrite !BuildProperties_closed by done. by rewrite He.
Qed.

(** Without collisions the order of the environment does not show. *)
Lemma BuildProperties_collision_free rt1 rt2 spec environment :
  go_runtime rt1 → go_runtime rt2 →
  collision_free spec environment = true →
  BuildProperties rt1 spec environment = BuildProperties rt2 spec environment.
Proof.
  intros Hrt1 Hrt2 Hfree. rewrite !BuildProperties_closed by done.
  pose proof (go_environment _ Hrt1 environment) as H1.
  pose proof (go_environment _ Hrt2 environment) as H2.
  apply for_each_Permutation; [by rewrite H1, H2|].
  intros [k1 v1] [k2 v2] config Hx Hy. rewrite H1 in Hx, Hy.
  destruct (collide_false spec (k1, v1) (k2, v2)) as [Hk|Hd].
  { by apply (collision_free_spec spec environment). }
  - simpl in Hk. subst k2.
    apply elem_of_map_to_list in Hx, Hy. by simplify_eq.
  - by apply env_step_comm.
Qed.

(** C4, as the code has it. BuildProperties visits the prefixes and the
    environment in the order the runtime chooses, and no order is defined.
    The order of the prefixes (and of the defaults) never shows: all the
    prefix matches of one variable store that variable's value, so two
    runs that visit the environment in the same order return the same
    mapping or both panic.  The order of the environment does not show
    either when no two different variables with different values write
    the same output key. *)
Theorem BuildProperties_order_independence rt1 rt2 spec environment :
  go_runtime rt1 → go_runtime rt2 →
  (∀ e config, env_body rt1 spec e config = env_body rt2 spec e config)
  ∧ (range_environment rt1 environment = range_environment rt2 environment →
     BuildProperties rt1 spec environment = BuildProperties rt2 spec environment)
  ∧ (collision_free spec environment = true →
     BuildProperties rt1 spec environment = BuildProperties rt2 spec environment).
Proof.
  intros Hrt1 Hrt2. split_and!.
  - intros e config.
    rewrite !env_body_closed; [done|apply (go_Prefixes _ Hrt2)|apply (go_Prefixes _ Hrt1)].
  - by apply BuildProperties_same_environment_order.
  - by apply BuildProperties_collision_free.
Qed.

Lemma BuildProperties_order_independence_witness :
  BuildProperties (canonical [] "")
    {| Prefixes := {[ "KAFKA" := false; "KAF" := true; "CONFLUENT" := true ]};
       Excludes := ["KAFKA_IGNORED"];
       Renamed := {[ "KAFKA_OLD" := "new.name" ]};
       Defaults := {[ "bootstrap.servers" := "unknown" ]} |}
    {[ "KAFKA_BOOTSTRAP_SERVERS" := "localhost:9092"; "KAFKA_OLD" := "v";
       "CONFLUENT_METRICS" := "metricsValue"; "KAFKA_IGNORED" := "ignored" ]}
  = BuildProperties (reversed [] "")
    {| Prefixes := {[ "KAFKA" := false; "KAF" := true; "CONFLUENT" := true ]};
       Excludes := ["KAFKA_IGNORED"];
       Renamed := {[ "KAFKA_OLD" := "new.name" ]};
       Defaults := {[ "bootstrap.servers" := "unknown" ]} |}
    {[ "KAFKA_BOOTSTRAP_SERVERS" := "localhost:9092"; "KAFKA_OLD" := "v";
       "CONFLUENT_METRICS" := "metricsValue"; "KAFKA_IGNORED" := "ignored" ]}.
Proof.
  apply (BuildProperties_order_independence (canonical [] "") (reversed [] "")).
  - apply go_runtime_canonical.
  - apply go_runtime_reversed.
  - vm_compute. reflexivity.
Defined.

(** C4, as the claim states it, fails: two variables that write the same
    key make the result depend on the order in which the runtime presents
    the environment.  Both orders below are orders a Go runtime may
    choose. *)
Lemma BuildProperties_depends_on_environment_order :
  go_runtime (canonical [] "") ∧ go_runtime (reversed [] "")
  ∧ BuildProperties (canonical [] "")
      {| Prefixes := {[ "A" := false; "B" := false ]};
         Excludes := []; Renamed := ∅; Defaults := ∅ |}
      {[ "A_X" := "1"; "B_X" := "2" ]} = Some {[ "x" := "2" ]}
  ∧ BuildProperties (reversed [] "")
      {| Prefixes := {[ "A" := false; "B" := false ]};
         Excludes := []; Renamed := ∅; Defaults := ∅ |}
      {[ "A_X" := "1"; "B_X" := "2" ]} = Some {[ "x" := "1" ]}.
Proof.
  split_and!.
  - apply go_runtime_canonical.
  - apply go_runtime_reversed.
  - vm_compute. reflexivity.
  - vm_compute. reflexivity.
Qed.

(** A key that some variable of the loop writes is a key of the result. *)
Lemma env_loop_written spec l config props key :
  for_each (env_step spec) l config = Some props →
  Exists (λ e, key ∈ output_keys spec e.1) l →
  is_Some (props !! key).
Proof.
  revert config. induction l as [|e l IH]; intros config; cbn [for_each].
  { by intros _ ?%Exists_nil. }
  destruct (env_ok spec e.1) eqn:Hok;
    [rewrite env_step_Some by done|by rewrite env_step_None].
  cbn [mbind option_bind]. intros Hl Hex.
  destruct (decide (Exists (λ e, key ∈ output_keys spec e.1) l)) as [Hl'|Hl'].
  { by apply (IH _ Hl Hl'). }
  apply Exists_cons in Hex as [Hw|?]; [|done].
  rewrite (env_loop_lookup _ _ _ _ key "" Hl).
  - rewrite bool_decide_eq_false_2 by done.
    rewrite store_all_lookup, bool_decide_eq_true_2 by done. by eexists.
  - intros e' Hin Hw'. destruct Hl'. apply Exists_exists. eauto.
Qed.

(** The run returns when no variable that is neither renamed nor excluded
    has a name that is itself a prefix with keepPrefix false. *)
Lemma BuildProperties_returns rt spec environment :
  go_runtime rt →
  (∀ other v, environment !! other = Some v →
              Renamed spec !! other = None →
              Contains (Excludes spec) other = false →
              Prefixes spec !! other ≠ Some false) →
  is_Some (BuildProperties rt spec environment).
Proof.
  intros Hrt Hsafe. rewrite BuildProperties_closed by done.
  apply env_loop_is_Some, Forall_forall. intros [other v] Hin.
  rewrite (go_environment _ Hrt environment) in Hin.
  apply elem_of_map_to_list in Hin. simpl.
  destruct (env_ok spec other) eqn:Hok; [done|].
  apply env_ok_false in Hok as (Hr & Hx & Hp). by destruct (Hsafe other v).
Qed.

(** C6. A variable whose name is in Renamed stores its value under the
    renamed key and does nothing else, also when its name is excluded or
    matches prefixes (even a prefix that would make the slice panic).
    BuildProperties returns a mapping unless another variable makes it
    panic; the renamed key is a key of that mapping, and it holds the
    value unless another variable with another value writes the same
    key.  On the environment that holds this variable alone the result is
    the defaults with the value stored under the renamed key. *)
Theorem renamed_takes_precedence rt spec environment name value newKey :
  go_runtime rt →
  environment !! name = Some value →
  Renamed spec !! name = Some newKey →
  (∀ config, env_body rt spec (name, value) config = Some (<[newKey := value]> config))
  ∧ output_keys spec name = [newKey]
  ∧ (∀ props,
       BuildProperties rt spec environment = Some props →
       (∀ other v, environment !! other = Some v →
                   newKey ∈ output_keys spec other → v = value) →
       props !! newKey = Some value)
  ∧ ((∀ other v, environment !! other = Some v →
                 Renamed spec !! other = None →
                 Contains (Excludes spec) other = false →
                 Prefixes spec !! other ≠ Some false) →
     ∃ props,
       BuildProperties rt spec environment = Some props
       ∧ is_Some (props !! newKey)
       ∧ ((∀ other v, environment !! other = Some v →
                      newKey ∈ output_keys spec other → v = value) →
          props !! newKey = Some value))
  ∧ BuildProperties rt spec {[ name := value ]}
    = Some (<[newKey := value]> (Defaults spec)).
Proof.
  intros Hrt He Hr.
  assert (output_keys spec name = [newKey]) as Hkeys
    by (unfold output_keys; by rewrite Hr).
  assert (Exists (λ e, newKey ∈ output_keys spec e.1)
                 (range_environment rt environment)) as Hwriter.
  { apply Exists_exists. exists (name, value). split.
    - rewrite (go_environment _ Hrt environment). by apply elem_of_map_to_list.
    - simpl. rewrite Hkeys. by apply elem_of_cons; left. }
  assert (∀ props,
            BuildProperties rt spec environment = Some props →
            (∀ other v, environment !! other = Some v →
                        newKey ∈ output_keys spec other → v = value) →
            props !! newKey = Some value) as Hvalue.
  { intros props Hb Hothers. rewrite BuildProperties_closed in Hb by done.
    rewrite (env_loop_lookup _ _ _ _ newKey value Hb).
    - by rewrite bool_decide_eq_true_2.
    - intros [k v] Hin Hk. rewrite (go_environment _ Hrt environment) in Hin.
      apply elem_of_map_to_list in Hin. by apply (Hothers k v). }
  split_and!.
  - intros config. unfold env_body. by rewrite Hr.
  - done.
  - done.
  - intros Hsafe.
    destruct (BuildProperties_returns rt spec environment Hrt Hsafe) as [props Hb].
    exists props. split_and!; [done| |by apply Hvalue].
    rewrite BuildProperties_closed in Hb by done.
    by apply (env_loop_written spec _ _ _ _ Hb).
  - rewrite BuildProperties_closed by done.
    pose proof (go_environment _ Hrt {[ name := value ]}) as Hperm.
    rewrite map_to_list_singleton in Hperm.
    apply Permutation_singleton_r in Hperm. rewrite Hperm.
    cbn [for_each]. rewrite env_step_Some.
    + simpl. by rewrite Hkeys.
    + unfold env_ok. simpl. by rewrite Hr.
Qed.

Lemma renamed_takes_precedence_witness :
  ∃ props,
    BuildProperties (reversed [] "")
      {| Prefixes := {[ "KAFKA" := false; "KAFKA_OLD" := false ]};
         Excludes := ["KAFKA_OLD"];
         Renamed := {[ "KAFKA_OLD" := "new.name" ]};
         Defaults := {[ "new.name" := "default" ]} |}
      {[ "KAFKA_OLD" := "v"; "KAFKA_FOO" := "foo" ]} = Some props
    ∧ props !! "new.name" = Some "v".
Proof.
  destruct (renamed_takes_precedence (reversed [] "")
              {| Prefixes := {[ "KAFKA" := false; "KAFKA_OLD" := false ]};
                 Excludes := ["KAFKA_OLD"];
                 Renamed := {[ "KAFKA_OLD" := "new.name" ]};
                 Defaults := {[ "new.name" := "default" ]} |}
              {[ "KAFKA_OLD" := "v"; "KAFKA_FOO" := "foo" ]}
              "KAFKA_OLD" "v" "new.name")
    as (_ & _ & _ & Hreturns & _);
    [apply go_runtime_reversed|reflexivity|reflexivity|].
  destruct Hreturns as (props & Hb & _ & Hv).
  - intros other v Hl Hr Hx Hp. cbn [Prefixes] in Hp. cbn [Renamed] in Hr.
    apply lookup_insert_Some in Hp as [[<- _]|[_ Hp]].
    + vm_compute in Hl. discriminate Hl.
    + apply lookup_singleton_Some in Hp as [<- _]. vm_compute in Hr. discriminate Hr.
  - exists props. split; [exact Hb|]. apply Hv.
    intros other v Hl Hw.
    apply lookup_insert_Some in Hl as [[_ <-]|[_ Hl]]; [done|].
    apply lookup_singleton_Some in Hl as [<- <-].
    assert (output_keys
              {| Prefixes := {[ "KAFKA" := false; "KAFKA_OLD" := false ]};
                 Excludes := ["KAFKA_OLD"];
                 Renamed := {[ "KAFKA_OLD" := "new.name" ]};
                 Defaults := {[ "new.name" := "default" ]} |} "KAFKA_FOO"
            = ["foo"]) as Hk by (vm_compute; reflexivity).
    rewrite Hk in Hw.
    apply elem_of_cons in Hw as [Hw|Hw]; [discriminate Hw|].
    exact (False_ind _ (proj1 (elem_of_nil _) Hw)).
Defined.

(** ** writeConfig *)

Lemma names_loop {V} (l : list (string * V)) acc :
  foldl (λ names e, (names ++ [e.1])%list) acc l = (acc ++ l.*1)%list.
Proof.
  revert acc. induction l as [|e l IH]; intros acc; simpl.
  - by rewrite (right_id_L [] (++)%list).
  - rewrite IH. by rewrite <-(assoc_L (++)%list).
Qed.

(** [sort.Strings] gives the one ascending arrangement of its input. *)
Lemma sort_Strings_Permutation l1 l2 : l1 ≡ₚ l2 → sort_Strings l1 = sort_Strings l2.
Proof.
  intros Hl. unfold sort_Strings.
  apply (Sorted_unique String.le); [apply Sorted_merge_sort, _..|].
  by rewrite !merge_sort_Permutation.
Qed.

Lemma sortedNames_canonical rt (config : gmap string string) :
  visits_once (range_config rt) →
  sort_Strings (foldl (λ names e, (names ++ [e.1])%list) [] (range_config rt config))
  = sort_Strings (map_to_list config).*1.
Proof.
  intros Hrt. rewrite names_loop. simpl.
  apply sort_Strings_Permutation. by rewrite (Hrt config).
Qed.

Lemma buffer_lines_loop (config : gmap string string) names (buf : string) :
  for_each (λ n w, Write w (n ++ "=" ++ (config !!! n) ++ LF)) names buf
  = Some (buf ++ property_lines config names).
Proof.
  revert buf. induction names as [|n names IH]; intros buf; simpl.
  - by rewrite append_nil_r.
  - unfold Write at 1, buffer_Writer at 1. simpl. rewrite IH.
    by rewrite append_assoc.
Qed.

(** What [writeConfig] appends to an in-memory sink. *)
Lemma writeConfig_buffer rt (buf : string) (config : gmap string string) :
  visits_once (range_config rt) →
  writeConfig rt buf config =
    Some (buf ++ formatHeritage rt ++ LF
              ++ property_lines config (sort_Strings (map_to_list config).*1)).
Proof.
  intros Hrt. unfold writeConfig.
  rewrite sortedNames_canonical by done.
  change (Write buf (formatHeritage rt ++ LF))
    with (Some (buf ++ (formatHeritage rt ++ LF))).
  cbn [mbind option_bind]. rewrite buffer_lines_loop.
  by rewrite !append_assoc.
Qed.

Lemma sort_Strings_keys (config : gmap string string) :
  Sorted String.le (sort_Strings (map_to_list config).*1)
  ∧ NoDup (sort_Strings (map_to_list config).*1)
  ∧ ∀ n, n ∈ sort_Strings (map_to_list config).*1 ↔ is_Some (config !! n).
Proof.
  unfold sort_Strings. split_and!.
  - apply Sorted_merge_sort, _.
  - rewrite merge_sort_Permutation. apply NoDup_fst_map_to_list.
  - intros n. rewrite merge_sort_Permutation, list_elem_of_fmap. split.
    + intros ([k v] & -> & Hin). apply elem_of_map_to_list in Hin. by exists v.
    + intros [v Hv]. exists (n, v). split; [done|]. by apply elem_of_map_to_list.
Qed.

Lemma for_each_map {A B S} (g : A → B) (body : B → S → option S) l s :
  for_each body (map g l) s = for_each (λ x, body (g x)) l s.
Proof.
  revert s. induction l as [|x l IH]; intros s; simpl; [done|].
  destruct (body (g x) s); simpl; auto.
Qed.

(** On any sink, [writeConfig] is this sequence of writes, stopped by the
    first one that fails. *)
Lemma writeConfig_writes `{Writer W} rt (writer : W) (config : gmap string string) :
  visits_once (range_config rt) →
  writeConfig rt writer config =
    for_each (λ s w, Write w s)
      ((formatHeritage rt ++ LF)
         :: map (property_line config) (sort_Strings (map_to_list config).*1))
      writer.
Proof.
  intros Hrt. unfold writeConfig. rewrite sortedNames_canonical by done.
  cbn [for_each]. destruct (Write writer (formatHeritage rt ++ LF)); [|done].
  cbn [mbind option_bind]. by rewrite for_each_map.
Qed.

(** C7. On a sink that accepts the writes, writeConfig appends the
    heritage line (the fixed text followed by the time) and a line
    terminator, then for every key of the mapping, in ascending byte-wise
    order and once each, the key, [=], the value as it is and a line
    terminator.  The lines after the heritage line are the same for every
    iteration order and every time: two runs on one mapping differ in the
    heritage line only. *)
Theorem writeConfig_sorted_lines rt (buf : string) (config : gmap string string) :
  visits_once (range_config rt) →
  let names := sort_Strings (map_to_list config).*1 in
  writeConfig rt buf config
    = Some (buf ++ formatHeritage rt ++ LF ++ property_lines config names)
  ∧ formatHeritage rt = "# created by 'ub' from environment variables on " ++ Now rt
  ∧ Sorted String.le names
  ∧ NoDup names
  ∧ (∀ n, n ∈ names ↔ is_Some (config !! n))
  ∧ (∀ n rest, property_lines config (n :: rest)
               = (n ++ "=" ++ (config !!! n) ++ LF) ++ property_lines config rest)
  ∧ property_lines config [] = ""
  ∧ (∀ rt', visits_once (range_config rt') →
       writeConfig rt' buf config
         = Some (buf ++ formatHeritage rt' ++ LF ++ property_lines config names))
  ∧ (∀ W (sink : Writer W) (writer : W),
       writeConfig rt writer config
       = for_each (λ s w, Write w s)
           ((formatHeritage rt ++ LF) :: map (property_line config) names) writer).
Proof.
  intros Hrt names. destruct (sort_Strings_keys config) as (Hs & Hn & Hk).
  split_and!; try done.
  - by apply writeConfig_buffer.
  - intros rt' Hrt'. by apply writeConfig_buffer.
  - intros W sink writer. by apply writeConfig_writes.
Qed.

Lemma writeConfig_sorted_lines_witness :
  writeConfig (reversed [] "T") "" {[ "b" := "2"; "a.c" := "x=y"; "a" := "1" ]}
  = Some ("" ++ formatHeritage (reversed [] "T") ++ LF
             ++ property_lines {[ "b" := "2"; "a.c" := "x=y"; "a" := "1" ]}
                               ["a"; "a.c"; "b"]).
Proof.
  refine (eq_trans (proj1 (writeConfig_sorted_lines (reversed [] "T") ""
                             {[ "b" := "2"; "a.c" := "x=y"; "a" := "1" ]} _)) _).
  - intros m. apply reverse_Permutation.
  - vm_compute. reflexivity.
Defined.

(** A sink that rejects a write makes writeConfig panic. *)
Example writeConfig_write_failure :
  writeConfig (canonical [] "T") {| written := ""; left := 1 |} {[ "a" := "1" ]} = None.
Proof. vm_compute. reflexivity. Qed.

(** ** Reading the rendered file back *)

Lemma plain_entry_spec k v :
  plain_entry (k, v) = true →
  (count_byte "=" k = 0 ∧ count_byte (ascii_of_nat 10) k = 0)
  ∧ (count_byte "=" v = 0 ∧ count_byte (ascii_of_nat 10) v = 0).
Proof.
  unfold plain_entry. simpl. rewrite andb_true_r, !andb_true_iff, !Nat.eqb_eq. tauto.
Qed.

Lemma property_line_shape (config : gmap string string) n rest :
  property_line config n ++ rest
  = (n ++ "=" ++ (config !!! n)) ++ String (ascii_of_nat 10) rest.
Proof. unfold property_line, LF. by rewrite !append_assoc. Qed.

Lemma Split_property_lines (config : gmap string string) names :
  (∀ n, n ∈ names →
        count_byte (ascii_of_nat 10) n = 0
        ∧ count_byte (ascii_of_nat 10) (config !!! n) = 0) →
  strings.Split (property_lines config names) LF
  = (map (λ n, (n ++ "=" ++ (config !!! n))%string) names ++ [""%string])%list.
Proof.
  induction names as [|n names IH]; intros Hp; [done|].
  cbn [property_lines foldr]. rewrite property_line_shape.
  unfold LF. rewrite Split_first.
  - fold LF. fold (property_lines config names).
    rewrite IH; [done|]. intros; apply Hp. by apply elem_of_cons; right.
  - destruct (Hp n) as [Hn Hv]; [by apply elem_of_cons; left|].
    rewrite !count_byte_app, Hn, Hv. reflexivity.
Qed.

Lemma ListToMap_body_lines (config m : gmap string string) names :
  (∀ n, n ∈ names → count_byte "=" n = 0 ∧ count_byte "=" (config !!! n) = 0) →
  foldl ListToMap_body m (map (λ n, n ++ "=" ++ (config !!! n)) names)
  = foldl store m (map (λ n, (n, config !!! n)) names).
Proof.
  revert m. induction names as [|n names IH]; intros m Hp; [done|].
  simpl. destruct (Hp n) as [Hn Hv]; [by apply elem_of_cons; left|].
  rewrite ListToMap_body_kept by done.
  apply IH. intros; apply Hp. by apply elem_of_cons; right.
Qed.

Lemma entries_of_keys (config : gmap string string) :
  map (λ n, (n, config !!! n)) (map_to_list config).*1 = map_to_list config.
Proof.
  rewrite <-list_fmap_compose. rewrite <-(list_fmap_id (map_to_list config)) at 2.
  apply list_fmap_ext. intros i [k v] Hi. simpl.
  apply list_elem_of_lookup_2, elem_of_map_to_list in Hi.
  by rewrite (lookup_total_correct _ _ _ Hi).
Qed.

(** Parsing what [writeConfig] printed for a mapping without [=] and line
    feeds gives the mapping back. *)
Lemma parseProperties_writeConfig rt (props : gmap string string) :
  visits_once (range_config rt) →
  count_byte (ascii_of_nat 10) (Now rt) = 0 →
  forallb plain_entry (map_to_list props) = true →
  ∃ output, writeConfig rt "" props = Some output ∧ parseProperties output = props.
Proof.
  intros Hrt Hnow Hplain. eexists. split; [by apply writeConfig_buffer|].
  set (names := sort_Strings (map_to_list props).*1).
  assert (∀ n, n ∈ names → plain_entry (n, props !!! n) = true) as Hn.
  { intros n Hin. apply (sort_Strings_keys props) in Hin as [v Hv].
    rewrite (lookup_total_correct _ _ _ Hv).
    rewrite forallb_forall in Hplain. apply Hplain, list_elem_of_In.
    by apply elem_of_map_to_list. }
  unfold parseProperties.
  change ("" ++ formatHeritage rt ++ LF ++ property_lines props names)
    with (formatHeritage rt ++ String (ascii_of_nat 10) (property_lines props names)).
  unfold LF at 1. rewrite Split_first.
  2:{ unfold formatHeritage. rewrite count_byte_app, Hnow. reflexivity. }
  cbn [tail]. fold LF. rewrite Split_property_lines.
  2:{ intros n Hin. apply Hn, plain_entry_spec in Hin. tauto. }
  rewrite ListToMap_dropped by (simpl; lia).
  rewrite (right_id_L [] (++)%list). unfold ListToMap.
  rewrite ListToMap_body_lines.
  2:{ intros n Hin. apply Hn, plain_entry_spec in Hin. tauto. }
  rewrite (foldl_store_map_to_list _ props); [apply (right_id_L ∅ (∪))|].
  rewrite <-(entries_of_keys props). apply fmap_Permutation.
  apply merge_sort_Permutation.
Qed.

(** C5, as the code has it.  When the mapping returned by BuildProperties
    has no [=] and no line feed in its keys and values (and the heritage
    time has no line feed), parsing every line after the heritage line of
    what writeConfig prints as a [key=value] pair gives the mapping
    back. *)
Theorem writeConfig_round_trip rt spec environment props :
  go_runtime rt →
  count_byte (ascii_of_nat 10) (Now rt) = 0 →
  BuildProperties rt spec environment = Some props →
  forallb plain_entry (map_to_list props) = true →
  ∃ output, writeConfig rt "" props = Some output ∧ parseProperties output = props.
Proof.
  intros Hrt Hnow _ Hplain.
  by apply parseProperties_writeConfig; [apply (go_config _ Hrt)|..].
Qed.

Lemma writeConfig_round_trip_witness :
  ∃ output,
    writeConfig (reversed [] "2026-11-02 10:00:00 +0000 UTC") ""
      {[ "bootstrap.servers" := "localhost:9092"; "confluent.metrics" := "metricsValue" ]}
      = Some output
    ∧ parseProperties output
      = {[ "bootstrap.servers" := "localhost:9092"; "confluent.metrics" := "metricsValue" ]}.
Proof.
  apply (writeConfig_round_trip (reversed [] "2026-11-02 10:00:00 +0000 UTC")
           {| Prefixes := {[ "KAFKA" := false; "CONFLUENT" := true ]};
              Excludes := ["KAFKA_IGNORED"]; Renamed := ∅; Defaults := ∅ |}
           {[ "KAFKA_BOOTSTRAP_SERVERS" := "localhost:9092";
              "CONFLUENT_METRICS" := "metricsValue"; "KAFKA_IGNORED" := "ignored" ]}).
  - apply go_runtime_reversed.
  - vm_compute. reflexivity.
  - vm_compute. reflexivity.
  - vm_compute. reflexivity.
Defined.

(** C5, as the claim states it, fails: a value with [=] gives a line that
    ListToMap drops, and a value with a line feed gives two lines. *)
Lemma round_trip_fails_on_equals_sign_and_line_feed :
  BuildProperties (canonical [] "T")
    {| Prefixes := ∅; Excludes := []; Renamed := ∅; Defaults := {[ "k" := "a=b" ]} |} ∅
    = Some {[ "k" := "a=b" ]}
  ∧ writeConfig (canonical [] "T") "" {[ "k" := "a=b" ]}
    = Some ("# created by 'ub' from environment variables on T" ++ LF ++ "k=a=b" ++ LF)
  ∧ parseProperties
      ("# created by 'ub' from environment variables on T" ++ LF ++ "k=a=b" ++ LF) = ∅
  ∧ (∅ : gmap string string) ≠ {[ "k" := "a=b" ]}
  ∧ BuildProperties (canonical [] "T")
      {| Prefixes := ∅; Excludes := []; Renamed := ∅;
         Defaults := {[ "k" := "a" ++ LF ++ "b=c" ]} |} ∅
    = Some {[ "k" := "a" ++ LF ++ "b=c" ]}
  ∧ writeConfig (canonical [] "T") "" {[ "k" := "a" ++ LF ++ "b=c" ]}
    = Some ("# created by 'ub' from environment variables on T" ++ LF
            ++ "k=a" ++ LF ++ "b=c" ++ LF)
  ∧ parseProperties
      ("# created by 'ub' from environment variables on T" ++ LF
       ++ "k=a" ++ LF ++ "b=c" ++ LF) = {[ "k" := "a"; "b" := "c" ]}
  ∧ ({[ "k" := "a"; "b" := "c" ]} : gmap string string) ≠ {[ "k" := "a" ++ LF ++ "b=c" ]}.
Proof.
  split_and!; try (vm_compute; reflexivity).
  - intros Heq. apply (f_equal (λ m : gmap string string, m !! "k")) in Heq.
    vm_compute in Heq. discriminate.
  - intros Heq. apply (f_equal (λ m : gmap string string, m !! "b")) in Heq.
    vm_compute in Heq. discriminate.
Qed.

(** ** The two entry points *)

(** Two runs of [renderConfig] that read the same environment at the
    same time print the same, whatever the iteration orders, when the
    variables do not collide. *)
Lemma renderConfig_runs_agree `{Writer W} rt1 rt2 (writer : W) spec :
  go_runtime rt1 → go_runtime rt2 →
  Environ rt1 = Environ rt2 → Now rt1 = Now rt2 →
  collision_free spec (GetEnvironment rt1) = true →
  renderConfig rt1 writer spec = renderConfig rt2 writer spec.
Proof.
  intros Hrt1 Hrt2 He Hn Hfree. unfold renderConfig, GetEnvironment.
  rewrite <-He.
  rewrite (BuildProperties_collision_free rt1 rt2) by done.
  destruct (BuildProperties rt2 spec (ListToMap (Environ rt1))) as [config|]; [|done].
  cbn [mbind option_bind].
  rewrite !writeConfig_writes by (by apply go_config).
  unfold formatHeritage. by rewrite Hn.
Qed.

(** C9. On every sink and in every state of the outside world,
    renderConfigViaPrefix does what renderConfig does for the spec whose
    only prefix is the given one, with keepPrefix false, and whose
    excludes, renames and defaults are empty: the same output, the same
    panic.  This also holds for two separate runs, each with its own
    iteration orders, that read the same environment at the same time,
    when no two variables write the same key. *)
Theorem renderConfigViaPrefix_is_renderConfig `{Writer W} rt (writer : W) envVarPrefix :
  let spec := {| Prefixes := {[ envVarPrefix := false ]};
                 Excludes := []; Renamed := ∅; Defaults := ∅ |} in
  renderConfigViaPrefix rt writer envVarPrefix = renderConfig rt writer spec
  ∧ ∀ rt',
      go_runtime rt → go_runtime rt' →
      Environ rt = Environ rt' → Now rt = Now rt' →
      collision_free spec (GetEnvironment rt) = true →
      renderConfigViaPrefix rt writer envVarPrefix = renderConfig rt' writer spec.
Proof.
  intros spec. split; [done|].
  intros rt' Hrt Hrt' He Hn Hfree.
  by apply (renderConfig_runs_agree rt rt').
Qed.

Lemma renderConfigViaPrefix_is_renderConfig_witness :
  renderConfigViaPrefix
    (canonical ["KAFKA_BOOTSTRAP_SERVERS=localhost:9092"; "KAFKA_A_B=1"; "PATH=/bin"] "T")
    "" "KAFKA"
  = renderConfig
      (reversed ["KAFKA_BOOTSTRAP_SERVERS=localhost:9092"; "KAFKA_A_B=1"; "PATH=/bin"] "T")
      ""
      {| Prefixes := {[ "KAFKA" := false ]}; Excludes := []; Renamed := ∅; Defaults := ∅ |}.
Proof.
  apply (proj2 (renderConfigViaPrefix_is_renderConfig
                  (canonical ["KAFKA_BOOTSTRAP_SERVERS=localhost:9092"; "KAFKA_A_B=1";
                              "PATH=/bin"] "T") "" "KAFKA")).
  - apply go_runtime_canonical.
  - apply go_runtime_reversed.
  - reflexivity.
  - reflexivity.
  - vm_compute. reflexivity.
Defined.

(** The prefix-only entry point on a small environment. *)
Example renderConfigViaPrefix_example :
  renderConfigViaPrefix
    (canonical ["KAFKA_BOOTSTRAP_SERVERS=localhost:9092"; "KAFKA_A_B=1"; "PATH=/bin"] "T")
    "" "KAFKA"
  = Some ("# created by 'ub' from environment variables on T" ++ LF
          ++ "a.b=1" ++ LF ++ "bootstrap.servers=localhost:9092" ++ LF).
Proof. vm_compute. reflexivity. Qed.

(** ** The repository's tests *)

Example TestContains :
  Contains ["hello"; "world"] "hi" = false ∧ Contains ["hello"; "world"] "hello" = true.
Proof. by split. Qed.

Example TestBuildProperties_onlyDefaults :
  BuildProperties (canonical [] "") onlyDefaultsCS testEnv = Some (Defaults onlyDefaultsCS)
  ∧ BuildProperties (reversed [] "") onlyDefaultsCS testEnv = Some (Defaults onlyDefaultsCS).
Proof. split; vm_compute; reflexivity. Qed.

Example TestBuildProperties_server :
  BuildProperties (canonical [] "") serverCS testEnv
  = Some {[ "default.property.key" := "default.property.value";
            "bootstrap.servers" := "localhost:9092";
            "confluent.metrics" := "metricsValue" ]}
  ∧ BuildProperties (reversed [] "") serverCS testEnv
    = BuildProperties (canonical [] "") serverCS testEnv.
Proof. split; vm_compute; reflexivity. Qed.

Example TestBuildProperties_kafka :
  BuildProperties (canonical [] "") serverCS kafkaEnv
  = Some {[ "default.property.key" := "default.property.value";
            "bootstrap.servers" := "unknown";
            "foo" := "foo"; "foo.bar" := "bar";
            "with_underscore" := "with underscore";
            "with_underscore.and.more" := "with underscore and more";
            "with-dash" := "with dash";
            "with-dash.and.more" := "with dash and more" ]}
  ∧ (size <$> BuildProperties (reversed [] "") serverCS kafkaEnv) = Some 8.
Proof. split; vm_compute; reflexivity. Qed.

(** * Further properties of the code *)

(** ** BuildProperties: where the entries of the result come from *)

Lemma elem_of_prefix_key key envKey p :
  key ∈ prefix_key envKey p ↔
  strings.HasPrefix envKey p.1 = true
  ∧ ∃ effectiveKey,
      (if p.2 then Some envKey
       else strings.slice_from envKey (String.length p.1 + 1)) = Some effectiveKey
      ∧ key = ConvertKey effectiveKey.
Proof.
  unfold prefix_key. destruct (strings.HasPrefix envKey p.1).
  - destruct (if p.2 then Some envKey
              else strings.slice_from envKey (String.length p.1 + 1)) as [e|].
    + rewrite elem_of_cons, elem_of_nil. split.
      * intros [->|[]]. eauto.
      * intros (_ & e' & [= <-] & ->). by left.
    + rewrite elem_of_nil. split; [done|]. by intros (_ & e' & ? & _).
  - rewrite elem_of_nil. split; [done|]. by intros [? _].
Qed.

(** The keys a variable writes, read off the three branches of the loop
    body. *)
Lemma elem_of_output_keys spec envKey key :
  key ∈ output_keys spec envKey ↔
  Renamed spec !! envKey = Some key
  ∨ (Renamed spec !! envKey = None
     ∧ Contains (Excludes spec) envKey = false
     ∧ ∃ prefix (keep : bool) effectiveKey,
         Prefixes spec !! prefix = Some keep
         ∧ strings.HasPrefix envKey prefix = true
         ∧ (if keep then Some envKey
            else strings.slice_from envKey (String.length prefix + 1))
           = Some effectiveKey
         ∧ key = ConvertKey effectiveKey).
Proof.
  unfold output_keys. destruct (Renamed spec !! envKey) as [newKey|].
  { rewrite elem_of_cons, elem_of_nil. split.
    - intros [->|[]]. by left.
    - intros [[= ->]|[? _]]; [by left|done]. }
  destruct (Contains (Excludes spec) envKey); simpl.
  { rewrite elem_of_nil. split; [done|]. by intros [?|(_ & ? & _)]. }
  rewrite list_elem_of_In, in_flat_map. split.
  - intros ([prefix keep] & Hin & Hk). right. split_and!; try done.
    apply list_elem_of_In, elem_of_map_to_list in Hin.
    apply list_elem_of_In, elem_of_prefix_key in Hk as (Hp & e & He & ->).
    by exists prefix, keep, e.
  - intros [?|(_ & _ & prefix & keep & e & Hp & Hh & He & ->)]; [done|].
    exists (prefix, keep). split.
    + by apply list_elem_of_In, elem_of_map_to_list.
    + apply list_elem_of_In, elem_of_prefix_key. split; [done|]. by exists e.
Qed.

Lemma env_loop_provenance spec l config props key v :
  for_each (env_step spec) l config = Some props →
  props !! key = Some v →
  config !! key = Some v ∨ ∃ e, e ∈ l ∧ e.2 = v ∧ key ∈ output_keys spec e.1.
Proof.
  revert config. induction l as [|e l IH]; intros config; cbn [for_each].
  - intros [= <-] Hk. by left.
  - destruct (env_ok spec e.1) eqn:Hok;
      [rewrite env_step_Some by done|by rewrite env_step_None].
    cbn [mbind option_bind]. intros Hl Hk.
    destruct (IH _ Hl Hk) as [Hs|(e' & Hin & Hv & Hw)].
    + rewrite store_all_lookup in Hs. case_bool_decide as Hw.
      * right. exists e. split_and!; [by apply elem_of_cons; left|congruence|done].
      * by left.
    + right. exists e'. split_and!; [by apply elem_of_cons; right|done..].
Qed.

(** X1. BuildProperties invents nothing: every entry of the result is an
    entry of Defaults, or holds the value of an environment variable
    under the key that Renamed gives to its name or, for a variable that
    is neither renamed nor excluded, under ConvertKey of its name (prefix
    kept) or of its name cut after a matching prefix and one more
    byte. *)
Theorem BuildProperties_provenance rt spec environment props key v :
  go_runtime rt →
  BuildProperties rt spec environment = Some props →
  props !! key = Some v →
  Defaults spec !! key = Some v
  ∨ ∃ name,
      environment !! name = Some v
      ∧ (Renamed spec !! name = Some key
         ∨ (Renamed spec !! name = None
            ∧ Contains (Excludes spec) name = false
            ∧ ∃ prefix (keep : bool) effectiveKey,
                Prefixes spec !! prefix = Some keep
                ∧ strings.HasPrefix name prefix = true
                ∧ (if keep then Some name
                   else strings.slice_from name (String.length prefix + 1))
                  = Some effectiveKey
                ∧ key = ConvertKey effectiveKey)).
Proof.
  intros Hrt Hb Hk. rewrite BuildProperties_closed in Hb by done.
  destruct (env_loop_provenance _ _ _ _ _ _ Hb Hk) as [?|([name v'] & Hin & Hv & Hw)];
    [by left|right].
  simpl in *. subst v'. exists name. split.
  - rewrite (go_environment _ Hrt environment) in Hin. by apply elem_of_map_to_list.
  - by apply elem_of_output_keys.
Qed.

Lemma BuildProperties_provenance_witness :
  Defaults serverCS !! "confluent.metrics" = Some "metricsValue"
  ∨ ∃ name,
      testEnv !! name = Some "metricsValue"
      ∧ (Renamed serverCS !! name = Some "confluent.metrics"
         ∨ (Renamed serverCS !! name = None
            ∧ Contains (Excludes serverCS) name = false
            ∧ ∃ prefix (keep : bool) effectiveKey,
                Prefixes serverCS !! prefix = Some keep
                ∧ strings.HasPrefix name prefix = true
                ∧ (if keep then Some name
                   else strings.slice_from name (String.length prefix + 1))
                  = Some effectiveKey
                ∧ "confluent.metrics" = ConvertKey effectiveKey)).
Proof.
  apply (BuildProperties_provenance (reversed [] "") serverCS testEnv
           {[ "default.property.key" := "default.property.value";
              "bootstrap.servers" := "localhost:9092";
              "confluent.metrics" := "metricsValue" ]}).
  - apply go_runtime_reversed.
  - vm_compute. reflexivity.
  - vm_compute. reflexivity.
Defined.

(** X2. The defaults seed the result: every key of Defaults is a key of
    the result, and a key that no environment variable writes holds in
    the result what it holds in Defaults (its default, or nothing). *)
Theorem BuildProperties_defaults_kept rt spec environment props :
  go_runtime rt →
  BuildProperties rt spec environment = Some props →
  (∀ key d, Defaults spec !! key = Some d → is_Some (props !! key))
  ∧ (∀ key,
       (∀ name value, environment !! name = Some value →
                      key ∉ output_keys spec name) →
       props !! key = Defaults spec !! key).
Proof.
  intros Hrt Hb. rewrite BuildProperties_closed in Hb by done.
  assert (∀ key,
            (∀ name value, environment !! name = Some value →
                           key ∉ output_keys spec name) →
            props !! key = Defaults spec !! key) as Hkept.
  { intros key Hnone. rewrite (env_loop_lookup _ _ _ _ key "" Hb).
    - rewrite bool_decide_eq_false_2; [done|].
      intros ([name value] & Hin & Hw)%Exists_exists.
      rewrite (go_environment _ Hrt environment) in Hin.
      apply elem_of_map_to_list in Hin. by apply (Hnone name value).
    - intros [name value] Hin Hw.
      rewrite (go_environment _ Hrt environment) in Hin.
      apply elem_of_map_to_list in Hin. by apply Hnone in Hin. }
  split; [|done].
  intros key d Hd.
  destruct (decide (Exists (λ e, key ∈ output_keys spec e.1)
                           (range_environment rt environment))) as [Hex|Hex].
  - destruct (props !! key) as [v|] eqn:Hp; [by eexists|exfalso].
    revert Hb Hex Hp. generalize (Defaults spec).
    induction (range_environment rt environment) as [|e l IH];
      intros config; cbn [for_each].
    + by intros _ ?%Exists_nil.
    + destruct (env_ok spec e.1) eqn:Hok;
        [rewrite env_step_Some by done|by rewrite env_step_None].
      cbn [mbind option_bind]. intros Hl Hex Hp.
      destruct (decide (Exists (λ e, key ∈ output_keys spec e.1) l)) as [Hl'|Hl'].
      * by apply (IH _ Hl Hl').
      * apply Exists_cons in Hex as [Hw|?]; [|done].
        assert (props !! key
                = store_all e.2 config (output_keys spec e.1) !! key) as Heq.
        { rewrite (env_loop_lookup _ _ _ _ key "" Hl).
          - by rewrite bool_decide_eq_false_2.
          - intros e' Hin Hw'. destruct Hl'. apply Exists_exists. eauto. }
        rewrite Heq, store_all_lookup, bool_decide_eq_true_2 in Hp; done.
  - rewrite Hkept, Hd; [by eexists|].
    intros name value Hn Hw. destruct Hex. apply Exists_exists.
    exists (name, value). split; [|done].
    rewrite (go_environment _ Hrt environment). by apply elem_of_map_to_list.
Qed.

Lemma BuildProperties_defaults_kept_witness :
  (∀ key d, Defaults serverCS !! key = Some d →
            is_Some (({[ "default.property.key" := "default.property.value";
                         "bootstrap.servers" := "localhost:9092";
                         "confluent.metrics" := "metricsValue" ]}
                      : gmap string string) !! key))
  ∧ (∀ key,
       (∀ name value, testEnv !! name = Some value →
                      key ∉ output_keys serverCS name) →
       ({[ "default.property.key" := "default.property.value";
           "bootstrap.servers" := "localhost:9092";
           "confluent.metrics" := "metricsValue" ]} : gmap string string) !! key
       = Defaults serverCS !! key).
Proof.
  apply (BuildProperties_defaults_kept (canonical [] "") serverCS testEnv).
  - apply go_runtime_canonical.
  - vm_compute. reflexivity.
Defined.

(** ** BuildProperties: what a variable contributes *)

Lemma flat_map_nil {A B} (f : A → list B) l :
  (∀ x, x ∈ l → f x = []) → flat_map f l = [].
Proof.
  induction l as [|x l IH]; intros Hf; simpl; [done|].
  rewrite Hf by (by apply elem_of_cons; left). simpl.
  apply IH. intros; apply Hf. by apply elem_of_cons; right.
Qed.

(** A variable that is not renamed and is excluded or matches no prefix
    leaves the mapping as it is. *)
Lemma env_step_silent spec e config :
  Renamed spec !! e.1 = None →
  (Contains (Excludes spec) e.1 = true
   ∨ ∀ prefix keep, Prefixes spec !! prefix = Some keep →
                    strings.HasPrefix e.1 prefix = false) →
  env_step spec e config = Some config.
Proof.
  intros Hr Hs. unfold env_step, env_ok, output_keys. rewrite Hr.
  destruct Hs as [->|Hp]; [done|].
  destruct (negb (Contains (Excludes spec) e.1)); [|done].
  assert (∀ p, p ∈ map_to_list (Prefixes spec) → strings.HasPrefix e.1 p.1 = false)
    as Hno.
  { intros [prefix keep] Hin. apply elem_of_map_to_list in Hin. by apply (Hp _ keep). }
  rewrite (proj2 (forallb_forall _ _)).
  - rewrite flat_map_nil; [done|].
    intros p Hin. unfold prefix_key. by rewrite Hno.
  - intros p Hin%list_elem_of_In. unfold prefix_ok. by rewrite Hno.
Qed.

(** X3. When every environment variable is left out by the spec (it is
    not renamed, and it is excluded or starts with none of the prefixes),
    BuildProperties returns the defaults unchanged; so it does on the
    empty environment. *)
Theorem BuildProperties_only_defaults rt spec environment :
  go_runtime rt →
  (∀ name value,
     environment !! name = Some value →
     Renamed spec !! name = None
     ∧ (Contains (Excludes spec) name = true
        ∨ ∀ prefix keep, Prefixes spec !! prefix = Some keep →
                         strings.HasPrefix name prefix = false)) →
  BuildProperties rt spec environment = Some (Defaults spec).
Proof.
  intros Hrt Hs. rewrite BuildProperties_closed by done.
  assert (∀ e, e ∈ range_environment rt environment →
               ∀ config, env_step spec e config = Some config) as Hstep.
  { intros [name value] Hin config.
    rewrite (go_environment _ Hrt environment) in Hin.
    apply elem_of_map_to_list, Hs in Hin as [Hr Hx]. by apply env_step_silent. }
  revert Hstep. generalize (Defaults spec).
  induction (range_environment rt environment) as [|e l IH];
    intros config Hstep; cbn [for_each]; [done|].
  rewrite Hstep by (by apply elem_of_cons; left). cbn [mbind option_bind].
  apply IH. intros; apply Hstep. by apply elem_of_cons; right.
Qed.

Lemma BuildProperties_only_defaults_witness :
  BuildProperties (reversed [] "") serverCS {[ "KAFKA_IGNORED" := "ignored" ]}
  = Some (Defaults serverCS).
Proof.
  apply (BuildProperties_only_defaults (reversed [] "") serverCS).
  - apply go_runtime_reversed.
  - intros name value [<- _]%lookup_singleton_Some. split; [reflexivity|by left].
Defined.

Lemma HasPrefix_app prefix s : strings.HasPrefix (prefix ++ s) prefix = true.
Proof.
  unfold strings.HasPrefix. induction prefix as [|c prefix IH].
  - change ("" ++ s) with s. by destruct s.
  - rewrite append_cons. simpl. by destruct (ascii_dec c c).
Qed.

Lemma slice_from_app prefix s :
  strings.slice_from (prefix ++ s) (String.length prefix) = Some s.
Proof.
  induction prefix as [|c prefix IH].
  - change ("" ++ s) with s. by destruct s.
  - by rewrite append_cons.
Qed.

Lemma slice_from_separator prefix sep rest :
  strings.slice_from (prefix ++ String sep rest) (String.length prefix + 1) = Some rest.
Proof.
  replace (prefix ++ String sep rest) with ((prefix ++ String sep "") ++ rest)
    by (by rewrite append_assoc).
  replace (String.length prefix + 1) with (String.length (prefix ++ String sep "")).
  - apply slice_from_app.
  - induction prefix as [|c prefix IH]; [done|].
    rewrite append_cons. simpl. by rewrite IH.
Qed.

(** Without collisions a key written by a variable holds the variable's
    value in the result. *)
Lemma BuildProperties_written rt spec environment props name value key :
  go_runtime rt →
  environment !! name = Some value →
  key ∈ output_keys spec name →
  collision_free spec environment = true →
  BuildProperties rt spec environment = Some props →
  props !! key = Some value.
Proof.
  intros Hrt He Hw Hfree Hb. rewrite BuildProperties_closed in Hb by done.
  pose proof (go_environment _ Hrt environment) as Hperm.
  assert ((name, value) ∈ map_to_list environment) as Hin
    by (by apply elem_of_map_to_list).
  rewrite (env_loop_lookup _ _ _ _ key value Hb).
  - rewrite bool_decide_eq_true_2; [done|].
    apply Exists_exists. exists (name, value). by rewrite Hperm.
  - intros [k v] Hin' Hw'. rewrite Hperm in Hin'. simpl in *.
    destruct (collide_false spec (name, value) (k, v)) as [Hk|[Hv|Hd]];
      [by apply (collision_free_spec spec environment)|..]; simpl in *.
    + subst k. apply elem_of_map_to_list in Hin'. congruence.
    + done.
    + by apply Hd in Hw.
Qed.

(** X4. Prefix stripping.  A variable that is neither renamed nor
    excluded, whose name is a prefix with keepPrefix false followed by one
    more byte and a rest, is stored under ConvertKey of the rest: the byte
    after the prefix is dropped whatever it is (an underscore or not).  In
    a run without collisions the result holds the variable's value under
    that key. *)
Theorem BuildProperties_strips_prefix rt spec environment props prefix sep rest value :
  go_runtime rt →
  environment !! (prefix ++ String sep rest) = Some value →
  Renamed spec !! (prefix ++ String sep rest) = None →
  Contains (Excludes spec) (prefix ++ String sep rest) = false →
  Prefixes spec !! prefix = Some false →
  collision_free spec environment = true →
  BuildProperties rt spec environment = Some props →
  props !! ConvertKey rest = Some value.
Proof.
  intros Hrt He Hr Hx Hp Hfree Hb.
  apply (BuildProperties_written rt spec environment props
           (prefix ++ String sep rest)); try done.
  apply elem_of_output_keys. right. split_and!; try done.
  exists prefix, false, rest. split_and!; try done.
  - apply HasPrefix_app.
  - apply slice_from_separator.
Qed.

Lemma BuildProperties_strips_prefix_witness :
  ({[ "default.property.key" := "default.property.value";
      "bootstrap.servers" := "localhost:9092";
      "confluent.metrics" := "metricsValue" ]} : gmap string string)
    !! ConvertKey "BOOTSTRAP_SERVERS" = Some "localhost:9092".
Proof.
  apply (BuildProperties_strips_prefix (reversed [] "") serverCS testEnv _
           "KAFKA" "_" "BOOTSTRAP_SERVERS" "localhost:9092").
  - apply go_runtime_reversed.
  - reflexivity.
  - reflexivity.
  - reflexivity.
  - reflexivity.
  - vm_compute. reflexivity.
  - vm_compute. reflexivity.
Defined.

(** X5. Prefix keeping.  A variable that is neither renamed nor excluded
    and starts with a prefix with keepPrefix true is stored under
    ConvertKey of its whole name; in a run without collisions the result
    holds the variable's value under that key. *)
Theorem BuildProperties_keeps_prefix rt spec environment props prefix name value :
  go_runtime rt →
  environment !! name = Some value →
  Renamed spec !! name = None →
  Contains (Excludes spec) name = false →
  Prefixes spec !! prefix = Some true →
  strings.HasPrefix name prefix = true →
  collision_free spec environment = true →
  BuildProperties rt spec environment = Some props →
  props !! ConvertKey name = Some value.
Proof.
  intros Hrt He Hr Hx Hp Hh Hfree Hb.
  apply (BuildProperties_written rt spec environment props name); try done.
  apply elem_of_output_keys. right. split_and!; try done.
  by exists prefix, true, name.
Qed.

Lemma BuildProperties_keeps_prefix_witness :
  ({[ "default.property.key" := "default.property.value";
      "bootstrap.servers" := "localhost:9092";
      "confluent.metrics" := "metricsValue" ]} : gmap string string)
    !! ConvertKey "CONFLUENT_METRICS" = Some "metricsValue".
Proof.
  apply (BuildProperties_keeps_prefix (canonical [] "") serverCS testEnv _
           "CONFLUENT" "CONFLUENT_METRICS" "metricsValue").
  - apply go_runtime_canonical.
  - reflexivity.
  - reflexivity.
  - reflexivity.
  - reflexivity.
  - reflexivity.
  - vm_compute. reflexivity.
  - vm_compute. reflexivity.
Defined.

(** ** ConvertKey: general facts *)

Lemma lower_byte_not_upper c : is_upper (strings.lower_byte c) = false.
Proof. by destruct c as [[] [] [] [] [] [] [] []]. Qed.

Lemma lower_byte_fixed c : is_upper c = false → strings.lower_byte c = c.
Proof. by destruct c as [[] [] [] [] [] [] [] []]. Qed.

Lemma ToLower_app s t : strings.ToLower (s ++ t) = strings.ToLower s ++ strings.ToLower t.
Proof.
  induction s as [|c s IH]; [done|].
  rewrite append_cons. simpl. by rewrite IH, append_cons.
Qed.

(** X6. ConvertKey never returns a key with an upper-case ASCII letter,
    whatever the name (also with runs of four or more underscores). *)
Theorem ConvertKey_no_upper key : has_upper (ConvertKey key) = false.
Proof.
  unfold ConvertKey.
  generalize (strings.ReplaceAll
                (strings.ReplaceAll (ReplaceAllStringFunc key replaceUnderscores)
                                    "___" "-") "__" "_").
  intros s. induction s as [|c s IH]; simpl; [done|].
  by rewrite lower_byte_not_upper, IH.
Qed.

Lemma count_byte_cons_0 c x s :
  count_byte c (String x s) = 0 → c ≠ x ∧ count_byte c s = 0.
Proof.
  simpl. destruct (Ascii.eqb_spec c x); [lia|]. intros. split; [done|lia].
Qed.

(** The scan passes over a piece in which the first byte of the pattern
    does not occur. *)
Lemma split_go_through c sep' cur a s :
  count_byte c a = 0 →
  strings.split_go (String c sep') 0 cur (a ++ s)
  = strings.split_go (String c sep') 0 (cur ++ a) s.
Proof.
  revert cur. induction a as [|x a IH]; intros cur Ha.
  - by rewrite append_nil_r.
  - rewrite append_cons. apply count_byte_cons_0 in Ha as [Hcx Ha].
    cbn [strings.split_go String.prefix].
    destruct (ascii_dec c x) as [?|_]; [done|].
    rewrite IH by done. by rewrite append_assoc.
Qed.

Lemma split_go_absent c sep' cur s :
  count_byte c s = 0 → strings.split_go (String c sep') 0 cur s = [cur ++ s].
Proof.
  intros Hs. rewrite <-(append_nil_r s) at 1.
  by rewrite split_go_through.
Qed.

(** A pattern whose first byte does not occur leaves the string alone. *)
Lemma ReplaceAll_absent c old' new s :
  count_byte c s = 0 → strings.ReplaceAll s (String c old') new = s.
Proof.
  intros Hs. unfold strings.ReplaceAll. by rewrite split_go_absent.
Qed.

Lemma ReplaceAllStringFunc_cons a s1 repl :
  ReplaceAllStringFunc (String a s1) repl =
    match s1 with
    | String b (String c rest) =>
        if re_match a b c
        then repl (String a (String b (String c ""))) ++ ReplaceAllStringFunc rest repl
        else String a (ReplaceAllStringFunc s1 repl)
    | _ => String a (ReplaceAllStringFunc s1 repl)
    end.
Proof. by destruct s1 as [|b [|c rest]]. Qed.

(** No match starts at a byte that is an underscore, or whose right
    neighbour is not one. *)
Lemma ReplaceAllStringFunc_skip a s1 repl :
  (a = "_"%char ∨ match s1 with String b _ => b ≠ "_"%char | _ => True end) →
  ReplaceAllStringFunc (String a s1) repl = String a (ReplaceAllStringFunc s1 repl).
Proof.
  intros Hno. rewrite ReplaceAllStringFunc_cons.
  destruct s1 as [|b [|c rest]]; try done.
  unfold re_match. destruct Hno as [->|Hb]; [done|].
  destruct (Ascii.eqb_spec b "_"); [done|]. by rewrite andb_false_r.
Qed.

Lemma ReplaceAllStringFunc_absent s repl :
  count_byte "_" s = 0 → ReplaceAllStringFunc s repl = s.
Proof.
  induction s as [|a s IH]; [done|]. intros [_ Hs]%count_byte_cons_0.
  rewrite ReplaceAllStringFunc_skip, IH; [done..|].
  right. destruct s as [|b s]; [done|].
  apply count_byte_cons_0 in Hs as [Hb _]. congruence.
Qed.

(** X8. A name without underscores is only put in lower case. *)
Theorem ConvertKey_without_underscore key :
  count_byte "_" key = 0 → ConvertKey key = strings.ToLower key.
Proof.
  intros Hk. unfold ConvertKey.
  rewrite ReplaceAllStringFunc_absent by done.
  rewrite (ReplaceAll_absent "_" "__" "-" key) by done.
  by rewrite ReplaceAll_absent.
Qed.

Lemma ConvertKey_without_underscore_witness :
  count_byte "_" "Path.To-Key" = 0 ∧ ConvertKey "Path.To-Key" = "path.to-key".
Proof.
  split; [reflexivity|].
  exact (ConvertKey_without_underscore "Path.To-Key" eq_refl).
Defined.

(** ** ConvertKey: names of two segments *)

Lemma ReplaceAllStringFunc_through a x s repl :
  count_byte "_" a = 0 → x ≠ "_"%char →
  ReplaceAllStringFunc (a ++ String x s) repl = a ++ ReplaceAllStringFunc (String x s) repl.
Proof.
  intros Ha Hx. induction a as [|y a IH]; [done|].
  apply count_byte_cons_0 in Ha as [_ Ha].
  rewrite !append_cons, ReplaceAllStringFunc_skip, IH; [done..|].
  right. destruct a as [|z a]; [by intros ->|].
  apply count_byte_cons_0 in Ha as [Hz _]. rewrite append_cons. congruence.
Qed.

(** An underscore that ends the name or is followed by another one is
    not a match, and neither is one that starts the name. *)
Lemma ReplaceAllStringFunc_before_run a s repl :
  count_byte "_" a = 0 →
  match s with String c _ => c = "_"%char | _ => True end →
  ReplaceAllStringFunc (a ++ String "_" s) repl
  = a ++ String "_" (ReplaceAllStringFunc s repl).
Proof.
  intros Ha Hs. induction a as [|y a IH].
  - change ("" ++ String "_" s) with (String "_" s).
    rewrite ReplaceAllStringFunc_skip; [done|by left].
  - apply count_byte_cons_0 in Ha as [_ Ha]. rewrite !append_cons.
    destruct a as [|z a].
    + change ("" ++ String "_" s) with (String "_" s).
      rewrite ReplaceAllStringFunc_cons.
      destruct s as [|c rest].
      * rewrite ReplaceAllStringFunc_skip; [done|by left].
      * subst c. unfold re_match. simpl (Ascii.eqb "_" "_").
        rewrite andb_false_r.
        rewrite (ReplaceAllStringFunc_skip "_"); [done|by left].
    + rewrite ReplaceAllStringFunc_skip, IH; [done..|].
      right. apply count_byte_cons_0 in Ha as [Hz _]. rewrite append_cons. congruence.
Qed.

Lemma replaceUnderscores_match x y :
  x ≠ "_"%char → y ≠ "_"%char →
  replaceUnderscores (String x (String "_" (String y "")))
  = String x (String "." (String y "")).
Proof.
  intros Hx Hy. unfold replaceUnderscores, strings.ReplaceAll.
  rewrite !split_go_cons, Ascii.eqb_refl.
  destruct (Ascii.eqb_spec "_" x) as [?|_]; [congruence|].
  destruct (Ascii.eqb_spec "_" y) as [?|_]; [congruence|]. done.
Qed.

(** A single underscore between two non-empty pieces becomes a dot. *)
Lemma ReplaceAllStringFunc_single a b :
  count_byte "_" a = 0 → count_byte "_" b = 0 → a ≠ "" → b ≠ "" →
  ReplaceAllStringFunc (a ++ "_" ++ b) replaceUnderscores = a ++ "." ++ b.
Proof.
  intros Ha Hb Hna Hnb.
  assert (∃ a0 x, a = a0 ++ String x "") as (a0 & x & ->).
  { clear Ha. induction a as [|y a IH]; [done|]. destruct a as [|z a].
    - by exists "", y.
    - destruct IH as (a0 & x & ->); [done|]. by exists (String y a0), x. }
  destruct b as [|y b]; [done|].
  rewrite count_byte_app in Ha.
  assert (count_byte "_" a0 = 0 ∧ x ≠ "_"%char) as [Ha0 Hx].
  { split; [lia|]. destruct (count_byte_cons_0 "_" x "") as [? _]; [lia|congruence]. }
  apply count_byte_cons_0 in Hb as [Hy Hb].
  rewrite !append_assoc. change (String x "" ++ "_" ++ String y b)
    with (String x (String "_" (String y b))).
  rewrite ReplaceAllStringFunc_through by done.
  rewrite ReplaceAllStringFunc_cons. unfold re_match.
  destruct (Ascii.eqb_spec x "_") as [?|_]; [done|].
  destruct (Ascii.eqb_spec y "_") as [?|_]; [congruence|].
  simpl (negb false && Ascii.eqb "_" "_" && negb false).
  cbv iota. rewrite replaceUnderscores_match by congruence.
  by rewrite ReplaceAllStringFunc_absent.
Qed.

Lemma prefix_misses c pat' b :
  count_byte c b = 0 → String.prefix (String c pat') b = false.
Proof.
  destruct b as [|y b]; [done|]. intros [Hy _]%count_byte_cons_0.
  simpl. by destruct (ascii_dec c y).
Qed.

Lemma split_go_miss sep cur c s :
  String.prefix sep (String c s) = false →
  strings.split_go sep 0 cur (String c s) = strings.split_go sep 0 (cur ++ String c "") s.
Proof. intros Hp. cbn [strings.split_go]. by rewrite Hp. Qed.

Lemma split_go_hit sep cur c s :
  String.prefix sep (String c s) = true →
  strings.split_go sep 0 cur (String c s)
  = cur :: strings.split_go sep (String.length sep - 1) "" s.
Proof. intros Hp. cbn [strings.split_go]. by rewrite Hp. Qed.

Lemma prefix_underscore pat' s :
  String.prefix (String "_" pat') (String "_" s) = String.prefix pat' s.
Proof. simpl. by destruct (ascii_dec "_" "_"). Qed.

(** The patterns [___] and [__] on a run of one, two or three
    underscores between pieces without underscores. *)
Lemma ReplaceAll_runs a b :
  count_byte "_" a = 0 → count_byte "_" b = 0 →
  strings.ReplaceAll (a ++ "_" ++ b) "___" "-" = a ++ "_" ++ b
  ∧ strings.ReplaceAll (a ++ "_" ++ b) "__" "_" = a ++ "_" ++ b
  ∧ strings.ReplaceAll (a ++ "__" ++ b) "___" "-" = a ++ "__" ++ b
  ∧ strings.ReplaceAll (a ++ "__" ++ b) "__" "_" = a ++ "_" ++ b
  ∧ strings.ReplaceAll (a ++ "___" ++ b) "___" "-" = a ++ "-" ++ b.
Proof.
  intros Ha Hb. unfold strings.ReplaceAll.
  change ("_" ++ b) with (String "_" b).
  change ("__" ++ b) with (String "_" (String "_" b)).
  change ("___" ++ b) with (String "_" (String "_" (String "_" b))).
  rewrite !split_go_through by done. change ("" ++ a) with a.
  split_and!.
  - rewrite split_go_miss by (by rewrite prefix_underscore, prefix_misses).
    rewrite split_go_absent by done. simpl. by rewrite !append_assoc.
  - rewrite split_go_miss by (by rewrite prefix_underscore, prefix_misses).
    rewrite split_go_absent by done. simpl. by rewrite !append_assoc.
  - rewrite split_go_miss by (by rewrite !prefix_underscore, prefix_misses).
    rewrite split_go_miss by (by rewrite prefix_underscore, prefix_misses).
    rewrite split_go_absent by done. simpl. by rewrite !append_assoc.
  - rewrite split_go_hit by (rewrite !prefix_underscore; by destruct b).
    cbn [String.length Nat.sub strings.split_go].
    rewrite split_go_absent by done. done.
  - rewrite split_go_hit by (rewrite !prefix_underscore; by destruct b).
    cbn [String.length Nat.sub strings.split_go].
    rewrite split_go_absent by done. done.
Qed.

(** X7. ConvertKey on a name made of two pieces without underscores: a
    single underscore between non-empty pieces becomes a dot, two
    underscores become one underscore, three become a dash; a single
    underscore at the start or at the end of the name stays an
    underscore.  The result is in lower case. *)
Theorem ConvertKey_two_segments a b :
  count_byte "_" a = 0 → count_byte "_" b = 0 →
  (a ≠ "" → b ≠ "" →
   ConvertKey (a ++ "_" ++ b) = strings.ToLower a ++ "." ++ strings.ToLower b)
  ∧ (a = "" ∨ b = "" →
     ConvertKey (a ++ "_" ++ b) = strings.ToLower a ++ "_" ++ strings.ToLower b)
  ∧ ConvertKey (a ++ "__" ++ b) = strings.ToLower a ++ "_" ++ strings.ToLower b
  ∧ ConvertKey (a ++ "___" ++ b) = strings.ToLower a ++ "-" ++ strings.ToLower b.
Proof.
  intros Ha Hb. destruct (ReplaceAll_runs a b Ha Hb) as (R1 & R2 & R3 & R4 & R5).
  assert (∀ s, count_byte "_" s = 0 → ReplaceAllStringFunc s replaceUnderscores = s)
    as Habs by (intros; by apply ReplaceAllStringFunc_absent).
  unfold ConvertKey. split_and!.
  - intros Hna Hnb. rewrite ReplaceAllStringFunc_single by done.
    assert (count_byte "_" (a ++ "." ++ b) = 0) as Hc
      by (rewrite !count_byte_app, Ha, Hb; reflexivity).
    rewrite (ReplaceAll_absent "_" "__" "-" _ Hc), (ReplaceAll_absent "_" "_" "_" _ Hc).
    by rewrite !ToLower_app.
  - intros Hempty.
    assert (ReplaceAllStringFunc (a ++ "_" ++ b) replaceUnderscores = a ++ "_" ++ b)
      as ->.
    { destruct Hempty as [->| ->].
      - change ("" ++ "_" ++ b) with (String "_" b).
        rewrite ReplaceAllStringFunc_skip, Habs; [done..|by left].
      - change ("_" ++ "") with (String "_" "").
        by rewrite ReplaceAllStringFunc_before_run. }
    by rewrite R1, R2, !ToLower_app.
  - change ("__" ++ b) with (String "_" (String "_" b)).
    rewrite ReplaceAllStringFunc_before_run by done.
    rewrite (ReplaceAllStringFunc_skip "_"), Habs; [|done|by left].
    change (String "_" (String "_" b)) with ("__" ++ b).
    by rewrite R3, R4, !ToLower_app.
  - change ("___" ++ b) with (String "_" (String "_" (String "_" b))).
    rewrite ReplaceAllStringFunc_before_run by done.
    rewrite (ReplaceAllStringFunc_skip "_"); [|by left].
    rewrite (ReplaceAllStringFunc_skip "_"), Habs; [|done|by left].
    change (String "_" (String "_" (String "_" b))) with ("___" ++ b).
    assert (count_byte "_" (a ++ "-" ++ b) = 0) as Hc
      by (rewrite !count_byte_app, Ha, Hb; reflexivity).
    rewrite R5, (ReplaceAll_absent "_" "_" "_" _ Hc). by rewrite !ToLower_app.
Qed.

Lemma ConvertKey_two_segments_witness :
  ConvertKey ("KEY" ++ "__" ++ "UNDERSCORE")
  = strings.ToLower "KEY" ++ "_" ++ strings.ToLower "UNDERSCORE".
Proof.
  apply (ConvertKey_two_segments "KEY" "UNDERSCORE"); reflexivity.
Defined.

(** ** listenersFromAdvertisedListeners *)

Example listeners_examples :
  listenersFromAdvertisedListeners "PLAINTEXT://broker:9092,SSL://broker.local:9093"
  = "PLAINTEXT://0.0.0.0:9092,SSL://0.0.0.0:9093"
  ∧ listenersFromAdvertisedListeners "PLAINTEXT://[::1]:9092" = "PLAINTEXT://0.0.0.0::1]:9092"
  ∧ listenersFromAdvertisedListeners "PLAINTEXT://broker" = "PLAINTEXT://broker"
  ∧ listenersFromAdvertisedListeners "a://b://c:d" = "a://0.0.0.0://c:d".
Proof. repeat split; vm_compute; reflexivity. Qed.

Lemma listeners_go_outside c s' :
  listeners_go false (String c s') =
    if starts_match c s' then "://0.0.0.0:" ++ listeners_go true s'
    else String c (listeners_go false s').
Proof. reflexivity. Qed.

Lemma starts_match_colon c s' : starts_match c s' = true → c = ":"%char.
Proof.
  unfold starts_match. destruct s' as [|b [|d rest]]; try done.
  destruct (Ascii.eqb_spec c ":"); [done|]. by rewrite !andb_false_l.
Qed.

Lemma listeners_go_copy c s' :
  c ≠ ":"%char → listeners_go false (String c s') = String c (listeners_go false s').
Proof.
  intros Hc. rewrite listeners_go_outside.
  destruct (starts_match c s') eqn:Hm; [|done]. by apply starts_match_colon in Hm.
Qed.

Lemma listeners_go_copy_all a s :
  count_byte ":" a = 0 → listeners_go false (a ++ s) = a ++ listeners_go false s.
Proof.
  induction a as [|c a IH]; [done|]. intros [Hc Ha]%count_byte_cons_0.
  rewrite !append_cons, listeners_go_copy, IH; [done..|congruence].
Qed.

Lemma listeners_go_inside h rest :
  count_byte ":" h = 0 →
  listeners_go true (h ++ String ":" rest) = listeners_go false rest.
Proof.
  induction h as [|c h IH]; [done|]. intros [Hc Ha]%count_byte_cons_0.
  rewrite append_cons. cbn [listeners_go].
  destruct (Ascii.eqb_spec c ":") as [?|_]; [congruence|]. by apply IH.
Qed.

Lemma colon_ahead_host host rest :
  count_byte (ascii_of_nat 10) host = 0 → colon_ahead (host ++ String ":" rest) = true.
Proof.
  induction host as [|c host IH]; [done|]. intros [Hc Ha]%count_byte_cons_0.
  rewrite append_cons. cbn [colon_ahead].
  destruct (Ascii.eqb c ":"); [done|].
  destruct (Ascii.eqb_spec c (ascii_of_nat 10)) as [?|_]; [congruence|]. by apply IH.
Qed.

Lemma colon_ahead_none s : count_byte ":" s = 0 → colon_ahead s = false.
Proof.
  induction s as [|c s IH]; [done|]. intros [Hc Ha]%count_byte_cons_0.
  cbn [colon_ahead]. destruct (Ascii.eqb_spec c ":") as [?|_]; [congruence|].
  destruct (Ascii.eqb c (ascii_of_nat 10)); [done|]. by apply IH.
Qed.

(** X9. One listener: in [protocol://host:rest], where the protocol holds
    no colon and the host neither a colon nor a line feed, the host is
    replaced by 0.0.0.0 and the rewriting goes on in the rest (the port
    and the listeners that follow).  A listener without a colon after the
    host, so without a port, is left as it is. *)
Theorem listeners_rewrites_host protocol host rest :
  count_byte ":" protocol = 0 →
  count_byte ":" host = 0 →
  (count_byte (ascii_of_nat 10) host = 0 →
   listenersFromAdvertisedListeners (protocol ++ "://" ++ host ++ ":" ++ rest)
   = protocol ++ "://0.0.0.0:" ++ listenersFromAdvertisedListeners rest)
  ∧ listenersFromAdvertisedListeners (protocol ++ "://" ++ host)
    = protocol ++ "://" ++ host.
Proof.
  intros Hp Hh. unfold listenersFromAdvertisedListeners. split.
  - intros Hlf. rewrite (listeners_go_copy_all protocol) by done. f_equal.
    replace ("://" ++ host ++ ":" ++ rest)
      with (String ":" (String "/" (String "/" (host ++ String ":" rest))))
      by reflexivity.
    rewrite listeners_go_outside. cbn [starts_match].
    rewrite colon_ahead_host by done. simpl (_ && _). cbv iota. f_equal.
    change (String "/" (String "/" (host ++ String ":" rest)))
      with (("//" ++ host) ++ String ":" rest).
    apply listeners_go_inside. by rewrite count_byte_app.
  - rewrite (listeners_go_copy_all protocol) by done. f_equal.
    replace ("://" ++ host) with (String ":" (String "/" (String "/" host)))
      by reflexivity.
    rewrite listeners_go_outside. cbn [starts_match].
    rewrite colon_ahead_none, andb_false_r by done.
    rewrite <-(append_nil_r (String "/" (String "/" host))).
    rewrite listeners_go_copy_all; [done|]. done.
Qed.

Lemma listeners_rewrites_host_witness :
  listenersFromAdvertisedListeners ("PLAINTEXT" ++ "://" ++ "broker" ++ ":" ++ "9092")
  = "PLAINTEXT" ++ "://0.0.0.0:" ++ listenersFromAdvertisedListeners "9092".
Proof.
  apply (listeners_rewrites_host "PLAINTEXT" "broker" "9092"); reflexivity.
Defined.

Lemma colon_ahead_listeners_go s :
  colon_ahead (listeners_go false s) = colon_ahead s.
Proof.
  induction s as [|c s IH]; [done|]. rewrite listeners_go_outside.
  destruct (starts_match c s) eqn:Hm.
  - apply starts_match_colon in Hm as ->. reflexivity.
  - cbn [colon_ahead]. by rewrite IH.
Qed.

Lemma starts_match_listeners_go c s :
  starts_match c (listeners_go false s) = starts_match c s.
Proof.
  destruct (Ascii.eqb_spec c ":") as [->|Hc].
  2:{ unfold starts_match.
      destruct (listeners_go false s) as [|? [|? ?]], s as [|? [|? ?]]; try done;
        destruct (Ascii.eqb_spec c ":"); try done; by rewrite ?andb_false_l. }
  destruct s as [|b s]; [done|].
  destruct (Ascii.eqb_spec b "/") as [->|Hb].
  2:{ rewrite listeners_go_outside. destruct (starts_match b s) eqn:Hm.
      - apply starts_match_colon in Hm as ->. simpl.
        by destruct s as [|? ?].
      - unfold starts_match.
        destruct (listeners_go false s) as [|? ?], s as [|? ?]; try done;
          destruct (Ascii.eqb_spec b "/"); try done; by rewrite ?andb_false_r. }
  rewrite listeners_go_copy by done.
  destruct s as [|d s]; [done|].
  destruct (Ascii.eqb_spec d "/") as [->|Hd].
  2:{ rewrite listeners_go_outside. destruct (starts_match d s) eqn:Hm.
      - apply starts_match_colon in Hm as ->. reflexivity.
      - unfold starts_match. destruct (Ascii.eqb_spec d "/"); [done|].
        by rewrite !andb_false_r. }
  rewrite listeners_go_copy by done.
  unfold starts_match. by rewrite colon_ahead_listeners_go.
Qed.

Lemma listeners_go_idempotent s :
  listeners_go false (listeners_go false s) = listeners_go false s
  ∧ listeners_go false (listeners_go true s) = listeners_go true s.
Proof.
  induction s as [|c s [IHf IHt]]; [done|]. split.
  - rewrite (listeners_go_outside c s). destruct (starts_match c s) eqn:Hm.
    + change ("://0.0.0.0:" ++ listeners_go true s)
        with (String ":" ("//0.0.0.0:" ++ listeners_go true s)).
      rewrite listeners_go_outside.
      change (starts_match ":" ("//0.0.0.0:" ++ listeners_go true s)) with true.
      cbv iota.
      change (listeners_go true ("//0.0.0.0:" ++ listeners_go true s))
        with (listeners_go false (listeners_go true s)).
      by rewrite IHt.
    + rewrite listeners_go_outside, starts_match_listeners_go, Hm. by rewrite IHf.
  - cbn [listeners_go]. by destruct (Ascii.eqb c ":").
Qed.

(** X10. Applying listenersFromAdvertisedListeners to its own result
    changes nothing. *)
Theorem listeners_idempotent listeners :
  listenersFromAdvertisedListeners (listenersFromAdvertisedListeners listeners)
  = listenersFromAdvertisedListeners listeners.
Proof. apply listeners_go_idempotent. Qed.

(** ** writeConfig on a sink that stops accepting writes *)

Lemma quota_writes l w q :
  for_each (λ s (sink : quota), Write sink s) l {| written := w; left := q |}
  = if decide (List.length l ≤ q)%nat
    then Some {| written := w ++ foldr String.append "" l; left := q - List.length l |}
    else None.
Proof.
  revert w q. induction l as [|s l IH]; intros w q; cbn [for_each].
  - rewrite decide_True by (simpl; lia). simpl. by rewrite append_nil_r, Nat.sub_0_r.
  - destruct q as [|q].
    + by rewrite decide_False by (simpl; lia).
    + change (Write {| written := w; left := S q |} s)
        with (Some {| written := w ++ s; left := q |}).
      cbn [mbind option_bind]. rewrite IH. simpl List.length.
      destruct (decide (List.length l ≤ q)%nat).
      * rewrite decide_True by lia. simpl. by rewrite append_assoc.
      * by rewrite decide_False by lia.
Qed.

Lemma property_lines_foldr (config : gmap string string) names :
  foldr String.append "" (map (property_line config) names) = property_lines config names.
Proof. induction names as [|n names IH]; [done|]. simpl. by rewrite IH. Qed.

(** X11. writeConfig makes one write for the heritage line and one per
    property.  On a sink that accepts [q] more writes and then fails it
    panics exactly when [q] is not more than the number of properties;
    otherwise all the lines are written and the sink has [q] less one and
    the number of properties writes left. *)
Theorem writeConfig_needs_one_write_per_line rt w q (config : gmap string string) :
  visits_once (range_config rt) →
  writeConfig rt {| written := w; left := q |} config
  = if decide (size config < q)%nat
    then Some {| written := w ++ formatHeritage rt ++ LF
                              ++ property_lines config (sort_Strings (map_to_list config).*1);
                 left := q - S (size config) |}
    else None.
Proof.
  intros Hrt. rewrite writeConfig_writes by done. rewrite quota_writes.
  assert (List.length (sort_Strings (map_to_list config).*1) = size config) as Hlen.
  { unfold sort_Strings. rewrite merge_sort_Permutation, length_fmap.
    apply length_map_to_list. }
  cbn [List.length]. rewrite length_map, Hlen.
  destruct (decide (size config < q)%nat).
  - rewrite decide_True by lia. cbn [foldr].
    by rewrite property_lines_foldr, !append_assoc.
  - by rewrite decide_False by lia.
Qed.

Lemma writeConfig_needs_one_write_per_line_witness :
  writeConfig (reversed [] "T") {| written := ""; left := 2 |}
    {[ "a" := "1"; "b" := "2" ]} = None.
Proof.
  refine (eq_trans (writeConfig_needs_one_write_per_line (reversed [] "T") "" 2
                      {[ "a" := "1"; "b" := "2" ]} _) _).
  - intros m. apply reverse_Permutation.
  - vm_compute. reflexivity.
Defined.

(** ** splitToMapDefaults and Contains: edge cases *)

Lemma KvStringToMap_empty sep : KvStringToMap "" sep = ∅.
Proof. by destruct sep. Qed.

(** X12. With an empty value list splitToMapDefaults returns the parsed
    defaults, and with an empty defaults list the parsed values; this is
    what a template gets when the overriding variable is unset and getEnv
    hands over the empty string. *)
Theorem splitToMapDefaults_empty_side rt separator kvString :
  visits_once (range_values rt) →
  splitToMapDefaults rt separator kvString "" = KvStringToMap kvString separator
  ∧ splitToMapDefaults rt separator "" kvString = KvStringToMap kvString separator.
Proof.
  intros Hrt. unfold splitToMapDefaults.
  rewrite !(foldl_store_map_to_list _ _ _ (Hrt _)), !KvStringToMap_empty.
  by rewrite (left_id_L ∅ (∪)), (right_id_L ∅ (∪)).
Qed.

Lemma splitToMapDefaults_empty_side_witness :
  splitToMapDefaults (reversed [] "") "," "kafka=INFO,kafka.controller=TRACE" ""
  = KvStringToMap "kafka=INFO,kafka.controller=TRACE" ",".
Proof.
  apply (splitToMapDefaults_empty_side (reversed [] "") ","
           "kafka=INFO,kafka.controller=TRACE").
  intros m. apply reverse_Permutation.
Defined.

(** X13. Contains answers true exactly for the elements of the slice. *)
Theorem Contains_elem_of slice element :
  Contains slice element = true ↔ element ∈ slice.
Proof.
  induction slice as [|v slice IH]; simpl.
  - by rewrite elem_of_nil.
  - rewrite elem_of_cons. destruct (String.eqb_spec v element) as [->|Hne].
    + by split; [left|].
    + rewrite IH. split; [by right|]. by intros [->|].
Qed.

(** ** The environment checks *)

(** X14. ensureAtLeastOne answers true exactly when one of the listed
    variables is set (a variable set to the empty string counts); on the
    empty list it answers false. *)
Theorem ensureAtLeastOne_exists LookupEnv envVars :
  ensureAtLeastOne LookupEnv envVars = true ↔
  ∃ envVar, envVar ∈ envVars ∧ is_Some (LookupEnv envVar).
Proof.
  induction envVars as [|v envVars IH]; simpl.
  - split; [done|]. by intros (? & ?%elem_of_nil & _).
  - unfold ensure at 1. destruct (LookupEnv v) as [x|] eqn:Hv.
    + split; [|done]. intros _. exists v. split; [by apply elem_of_cons; left|].
      rewrite Hv. by eexists.
    + rewrite IH. split.
      * intros (e & Hin & Hs). exists e. split; [by apply elem_of_cons; right|done].
      * intros (e & [->|Hin]%elem_of_cons & Hs).
        -- rewrite Hv in Hs. by destruct Hs.
        -- by exists e.
Qed.

(** ** parseSecondsDuration *)

Example parseSecondsDuration_examples :
  parseSecondsDuration "30" = Some 30000000000%Z
  ∧ parseSecondsDuration "+5" = Some 5000000000%Z
  ∧ parseSecondsDuration "-1" = Some (-1000000000)%Z
  ∧ parseSecondsDuration "" = None
  ∧ parseSecondsDuration "-" = None
  ∧ parseSecondsDuration "1.5" = None
  ∧ parseSecondsDuration " 5" = None
  ∧ parseSecondsDuration "9223372036854775808" = None
  ∧ parseSecondsDuration "9223372037" = Some (-9223372036709551616)%Z.
Proof. repeat split; vm_compute; reflexivity. Qed.

Lemma Atoi_range s secs :
  Atoi s = Some secs → (- 2 ^ 63 ≤ secs ≤ 2 ^ 63 - 1)%Z.
Proof.
  unfold Atoi.
  destruct (match s with
            | String c s' =>
                if Ascii.eqb c "-" then (true, s')
                else if Ascii.eqb c "+" then (false, s') else (false, s)
            | EmptyString => (false, s)
            end) as [neg digits].
  destruct digits as [|c digits]; [done|].
  destruct (digits_value 0 (String c digits)) as [n|]; [|done]. simpl.
  destruct ((- 2 ^ 63 <=? (if neg then (- n)%Z else n))%Z
            && ((if neg then (- n)%Z else n) <=? 2 ^ 63 - 1)%Z) eqn:Hr; [|done].
  intros [= <-]. apply andb_true_iff in Hr as [H1 H2]. lia.
Qed.

(** X15. parseSecondsDuration panics exactly when strconv.Atoi rejects
    the text.  For an accepted number of seconds the duration is that
    number times 10^9 nanoseconds exactly when the number lies between
    -9223372036 and 9223372036; outside, the 64-bit product wraps
    around. *)
Theorem parseSecondsDuration_exact_range s :
  (parseSecondsDuration s = None ↔ Atoi s = None)
  ∧ ∀ secs, Atoi s = Some secs →
      (parseSecondsDuration s = Some (secs * 1000000000)%Z
       ↔ (-9223372036 ≤ secs ≤ 9223372036)%Z).
Proof.
  unfold parseSecondsDuration. split.
  - by destruct (Atoi s).
  - intros secs Hs. rewrite Hs. cbn [mbind option_bind].
    apply Atoi_range in Hs. unfold wrap64, Second. split.
    + intros [= Hw].
      assert (0 ≤ (secs * 1000000000 + 2 ^ 63) mod 2 ^ 64 < 2 ^ 64)%Z
        by (apply Z.mod_pos_bound; lia).
      lia.
    + intros Hr. f_equal.
      rewrite Z.mod_small by lia. lia.
Qed.

(** ** Bytes that ConvertKey cannot introduce *)

(** Total number of occurrences of a byte in the pieces of a list. *)
Lemma count_byte_concat c sep l :
  count_byte c sep = 0 →
  count_byte c (String.concat sep l) = foldr (λ p n, count_byte c p + n) 0 l.
Proof.
  intros Hsep. induction l as [|x l IH]; [done|].
  destruct l as [|y l].
  - simpl. lia.
  - change (String.concat sep (x :: y :: l)) with (x ++ sep ++ String.concat sep (y :: l)).
    rewrite !count_byte_app, IH, Hsep. simpl. lia.
Qed.

Lemma split_go_count c sep skip cur s :
  (foldr (λ p n, count_byte c p + n) 0 (strings.split_go sep skip cur s)
   ≤ count_byte c cur + count_byte c s)%nat.
Proof.
  revert skip cur. induction s as [|x s IH]; intros skip cur.
  - simpl. lia.
  - cbn [strings.split_go]. destruct skip as [|k].
    + destruct (String.prefix sep (String x s)).
      * cbn [foldr]. specialize (IH (String.length sep - 1) ""). simpl in *. lia.
      * specialize (IH 0 (cur ++ String x "")).
        rewrite count_byte_app in IH. simpl in *. lia.
    + specialize (IH k cur). simpl. lia.
Qed.

Lemma ReplaceAll_count c s o old' new :
  count_byte c new = 0 →
  (count_byte c (strings.ReplaceAll s (String o old') new) ≤ count_byte c s)%nat.
Proof.
  intros Hnew. unfold strings.ReplaceAll, strings.Join.
  rewrite count_byte_concat by done.
  pose proof (split_go_count c (String o old') 0 "" s). simpl in *. lia.
Qed.

Lemma ReplaceAllStringFunc_count c key :
  c ≠ "."%char →
  (count_byte c (ReplaceAllStringFunc key replaceUnderscores) ≤ count_byte c key)%nat.
Proof.
  intros Hc.
  assert (count_byte c "." = 0) as Hdot.
  { simpl. by destruct (Ascii.eqb_spec c "."). }
  assert (∀ n key, (String.length key ≤ n)%nat →
            (count_byte c (ReplaceAllStringFunc key replaceUnderscores)
             ≤ count_byte c key)%nat) as Hn; [|by apply (Hn (String.length key))].
  clear key. induction n as [|n IH]; intros key Hl.
  - destruct key; [done|simpl in Hl; lia].
  - destruct key as [|a s1]; [done|]. rewrite ReplaceAllStringFunc_cons.
    assert (count_byte c (String a (ReplaceAllStringFunc s1 replaceUnderscores))
            ≤ count_byte c (String a s1))%nat as Hplain.
    { specialize (IH s1). simpl in *. lia. }
    destruct s1 as [|b [|d rest]]; try done.
    destruct (re_match a b d); [|done].
    rewrite count_byte_app.
    assert (count_byte c (replaceUnderscores (String a (String b (String d ""))))
            ≤ count_byte c (String a (String b (String d ""))))%nat as Hm
      by (by apply ReplaceAll_count).
    assert (count_byte c (ReplaceAllStringFunc rest replaceUnderscores)
            ≤ count_byte c rest)%nat as Hrest by (apply IH; simpl in Hl; lia).
    replace (String a (String b (String d rest)))
      with (String a (String b (String d "")) ++ rest) by reflexivity.
    rewrite count_byte_app. lia.
Qed.

Lemma ToLower_count_equals s :
  count_byte "=" (strings.ToLower s) = count_byte "=" s.
Proof.
  induction s as [|x s IH]; [done|]. simpl. rewrite IH. f_equal.
  by destruct x as [[] [] [] [] [] [] [] []].
Qed.

Lemma ToLower_count_line_feed s :
  count_byte (ascii_of_nat 10) (strings.ToLower s) = count_byte (ascii_of_nat 10) s.
Proof.
  induction s as [|x s IH]; [done|]. simpl. rewrite IH. f_equal.
  by destruct x as [[] [] [] [] [] [] [] []].
Qed.

(** ConvertKey puts no [=] and no line feed into a key. *)
Lemma ConvertKey_plain key :
  (count_byte "=" (ConvertKey key) ≤ count_byte "=" key)%nat
  ∧ (count_byte (ascii_of_nat 10) (ConvertKey key)
     ≤ count_byte (ascii_of_nat 10) key)%nat.
Proof.
  unfold ConvertKey. rewrite ToLower_count_equals, ToLower_count_line_feed.
  split.
  - etrans; [by apply ReplaceAll_count|].
    etrans; [by apply ReplaceAll_count|].
    by apply ReplaceAllStringFunc_count.
  - etrans; [by apply ReplaceAll_count|].
    etrans; [by apply ReplaceAll_count|].
    by apply ReplaceAllStringFunc_count.
Qed.

Lemma slice_from_count c s n t :
  strings.slice_from s n = Some t → (count_byte c t ≤ count_byte c s)%nat.
Proof.
  revert s. induction n as [|n IH]; intros s.
  - destruct s; simpl; by intros [= <-].
  - destruct s as [|x s]; [done|]. simpl. intros Hs%IH.
    destruct (Ascii.eqb c x); lia.
Qed.

(** ** Reading back what renderConfig prints *)

Lemma plain_entry_intro k v :
  count_byte "=" k = 0 → count_byte (ascii_of_nat 10) k = 0 →
  count_byte "=" v = 0 → count_byte (ascii_of_nat 10) v = 0 →
  plain_entry (k, v) = true.
Proof. unfold plain_entry. simpl. by intros -> -> -> ->. Qed.

(** From an environment without line feeds, defaults without [=] and
    line feeds and renamed keys without them, BuildProperties builds a
    mapping without them. *)
Lemma BuildProperties_plain rt spec props :
  go_runtime rt →
  (∀ entry, entry ∈ Environ rt → count_byte (ascii_of_nat 10) entry = 0) →
  (∀ k v, Defaults spec !! k = Some v → plain_entry (k, v) = true) →
  (∀ name k, Renamed spec !! name = Some k →
             count_byte "=" k = 0 ∧ count_byte (ascii_of_nat 10) k = 0) →
  BuildProperties rt spec (GetEnvironment rt) = Some props →
  forallb plain_entry (map_to_list props) = true.
Proof.
  intros Hrt Henv Hdef Hren Hb. rewrite BuildProperties_closed in Hb by done.
  apply forallb_forall. intros [key v] Hin%list_elem_of_In%elem_of_map_to_list.
  destruct (env_loop_provenance _ _ _ _ _ _ Hb Hin) as [Hd|([name v'] & He & Hv & Hw)].
  { by apply Hdef. }
  simpl in Hv, Hw. subst v'.
  rewrite (go_environment _ Hrt (GetEnvironment rt)) in He.
  apply elem_of_map_to_list, ListToMap_lookup_Some in He as (Hentry & Hn & Hval).
  apply Henv in Hentry. rewrite !count_byte_app in Hentry.
  assert (count_byte (ascii_of_nat 10) name = 0
          ∧ count_byte (ascii_of_nat 10) v = 0) as [Hnl Hvl] by lia.
  apply elem_of_output_keys in Hw
    as [Hr|(_ & _ & prefix & keep & eff & _ & _ & Heff & ->)].
  { destruct (Hren _ _ Hr). by apply plain_entry_intro. }
  assert (count_byte "=" eff = 0 ∧ count_byte (ascii_of_nat 10) eff = 0) as [He1 He2].
  { destruct keep.
    - by injection Heff as <-.
    - pose proof (slice_from_count "=" _ _ _ Heff).
      pose proof (slice_from_count (ascii_of_nat 10) _ _ _ Heff). lia. }
  destruct (ConvertKey_plain eff). apply plain_entry_intro; lia.
Qed.

(** X16. What renderConfig prints can be read back.  When the process
    environment and the heritage time hold no line feed, and the defaults
    and the renamed keys of the spec hold neither [=] nor a line feed,
    then parsing every line after the heritage line of the output of
    renderConfig as a [key=value] pair gives exactly the mapping that
    BuildProperties built. *)
Theorem renderConfig_reads_back rt spec output :
  go_runtime rt →
  count_byte (ascii_of_nat 10) (Now rt) = 0 →
  (∀ entry, entry ∈ Environ rt → count_byte (ascii_of_nat 10) entry = 0) →
  (∀ k v, Defaults spec !! k = Some v → plain_entry (k, v) = true) →
  (∀ name k, Renamed spec !! name = Some k →
             count_byte "=" k = 0 ∧ count_byte (ascii_of_nat 10) k = 0) →
  renderConfig rt "" spec = Some output →
  BuildProperties rt spec (GetEnvironment rt) = Some (parseProperties output).
Proof.
  intros Hrt Hnow Henv Hdef Hren. unfold renderConfig.
  destruct (BuildProperties rt spec (GetEnvironment rt)) as [props|] eqn:Hb; [|done].
  cbn [mbind option_bind]. intros Hw.
  destruct (parseProperties_writeConfig rt props) as (out & Hout & Hparse);
    [apply (go_config _ Hrt)|done|by apply (BuildProperties_plain rt spec)|].
  rewrite Hout in Hw. injection Hw as <-. by rewrite Hparse.
Qed.

Lemma renderConfig_reads_back_witness :
  BuildProperties
    (reversed ["KAFKA_BOOTSTRAP_SERVERS=localhost:9092"; "KAFKA_OLD=v"; "X=a=b"] "T")
    {| Prefixes := {[ "KAFKA" := false ]}; Excludes := ["KAFKA_IGNORED"];
       Renamed := {[ "KAFKA_OLD" := "new.name" ]};
       Defaults := {[ "bootstrap.servers" := "unknown" ]} |}
    (GetEnvironment
       (reversed ["KAFKA_BOOTSTRAP_SERVERS=localhost:9092"; "KAFKA_OLD=v"; "X=a=b"] "T"))
  = Some (parseProperties
            ("# created by 'ub' from environment variables on T" ++ LF
             ++ "bootstrap.servers=localhost:9092" ++ LF ++ "new.name=v" ++ LF)).
Proof.
  apply (renderConfig_reads_back
           (reversed ["KAFKA_BOOTSTRAP_SERVERS=localhost:9092"; "KAFKA_OLD=v"; "X=a=b"] "T")).
  - apply go_runtime_reversed.
  - reflexivity.
  - intros entry Hin. simpl in Hin.
    repeat (apply elem_of_cons in Hin as [->|Hin]; [reflexivity|]).
    by apply elem_of_nil in Hin.
  - intros k v Hl. cbn [Defaults] in Hl.
    apply lookup_singleton_Some in Hl as [<- <-]. reflexivity.
  - intros name k Hl. cbn [Renamed] in Hl.
    apply lookup_singleton_Some in Hl as [<- <-]. by split.
  - vm_compute. reflexivity.
Defined.

(** X17. The same for the prefix-only entry point, whose spec has no
    defaults and no renames: when the process environment and the
    heritage time hold no line feed, the output of renderConfigViaPrefix
    reads back as the mapping BuildProperties built for the one prefix. *)
Theorem renderConfigViaPrefix_reads_back rt envVarPrefix output :
  go_runtime rt →
  count_byte (ascii_of_nat 10) (Now rt) = 0 →
  (∀ entry, entry ∈ Environ rt → count_byte (ascii_of_nat 10) entry = 0) →
  renderConfigViaPrefix rt "" envVarPrefix = Some output →
  BuildProperties rt
    {| Prefixes := {[ envVarPrefix := false ]};
       Excludes := []; Renamed := ∅; Defaults := ∅ |}
    (GetEnvironment rt)
  = Some (parseProperties output).
Proof.
  intros Hrt Hnow Henv. unfold renderConfigViaPrefix. cbv zeta.
  set (spec := {| Prefixes := {[ envVarPrefix := false ]};
                  Excludes := []; Renamed := ∅; Defaults := ∅ |}).
  destruct (BuildProperties rt spec (GetEnvironment rt)) as [props|] eqn:Hb; [|done].
  cbn [mbind option_bind]. intros Hw.
  destruct (parseProperties_writeConfig rt props) as (out & Hout & Hparse);
    [apply (go_config _ Hrt)|done| |].
  { apply (BuildProperties_plain rt spec); try done. }
  rewrite Hout in Hw. injection Hw as <-. by rewrite Hparse.
Qed.

Lemma renderConfigViaPrefix_reads_back_witness :
  BuildProperties
    (canonical ["KAFKA_BOOTSTRAP_SERVERS=localhost:9092"; "KAFKA_A_B=1"; "PATH=/bin"] "T")
    {| Prefixes := {[ "KAFKA" := false ]}; Excludes := []; Renamed := ∅; Defaults := ∅ |}
    (GetEnvironment
       (canonical ["KAFKA_BOOTSTRAP_SERVERS=localhost:9092"; "KAFKA_A_B=1"; "PATH=/bin"] "T"))
  = Some (parseProperties
            ("# created by 'ub' from environment variables on T" ++ LF
             ++ "a.b=1" ++ LF ++ "bootstrap.servers=localhost:9092" ++ LF)).
Proof.
  apply (renderConfigViaPrefix_reads_back
           (canonical ["KAFKA_BOOTSTRAP_SERVERS=localhost:9092"; "KAFKA_A_B=1"; "PATH=/bin"]
                      "T") "KAFKA").
  - apply go_runtime_canonical.
  - reflexivity.
  - intros entry Hin. simpl in Hin.
    repeat (apply elem_of_cons in Hin as [->|Hin]; [reflexivity|]).
    by apply elem_of_nil in Hin.
  - vm_compute. reflexivity.
Defined.

(** ** KvStringToMap on a well-formed list *)

Lemma Split_concat c (entries : list string) :
  Forall (λ e, count_byte c e = 0) entries → entries ≠ [] →
  strings.Split (String.concat (String c "") entries) (String c "") = entries.
Proof.
  induction entries as [|x entries IH]; [done|]. intros [Hx Hall]%Forall_cons _.
  destruct entries as [|y entries].
  - by apply Split_clean.
  - change (String.concat (String c "") (x :: y :: entries))
      with (x ++ String c (String.concat (String c "") (y :: entries))).
    rewrite Split_first by done. f_equal. by apply IH.
Qed.

Lemma ListToMap_body_pairs (pairs : list (string * string)) m :
  Forall (λ kv, count_byte "=" kv.1 = 0 ∧ count_byte "=" kv.2 = 0) pairs →
  foldl ListToMap_body m (map (λ kv, kv.1 ++ "=" ++ kv.2) pairs) = foldl store m pairs.
Proof.
  revert m. induction pairs as [|[k v] pairs IH]; intros m; [done|].
  intros [[Hk Hv] Hall]%Forall_cons. simpl.
  rewrite ListToMap_body_kept by done. by apply IH.
Qed.

(** X18. KvStringToMap reads a well-formed list back: for a one-byte
    separator, the text made of the entries [key=value] joined by the
    separator, where no key or value holds the separator or [=], parses
    to the map that stores the pairs one after the other (of two pairs
    with the same key the later one stays).  The empty text gives the
    empty map. *)
Theorem KvStringToMap_well_formed c (pairs : list (string * string)) :
  c ≠ "="%char →
  Forall (λ kv, (count_byte "=" kv.1 = 0 ∧ count_byte "=" kv.2 = 0)
                ∧ (count_byte c kv.1 = 0 ∧ count_byte c kv.2 = 0)) pairs →
  KvStringToMap
    (strings.Join (map (λ kv, kv.1 ++ "=" ++ kv.2) pairs) (String c "")) (String c "")
  = foldl store ∅ pairs.
Proof.
  intros Hc Hall. unfold KvStringToMap, strings.Join.
  destruct pairs as [|p pairs]; [done|].
  rewrite Split_concat.
  - unfold ListToMap. apply ListToMap_body_pairs.
    eapply Forall_impl; [done|]. by intros kv [? _].
  - apply Forall_fmap. eapply Forall_impl; [done|].
    intros kv [_ [Hk Hv]]. simpl. rewrite !count_byte_app, Hk, Hv. simpl.
    by destruct (Ascii.eqb_spec c "=").
  - done.
Qed.

Lemma KvStringToMap_well_formed_witness :
  KvStringToMap
    (strings.Join (map (λ kv, kv.1 ++ "=" ++ kv.2)
                       [("kafka", "INFO"); ("kafka.controller", "TRACE"); ("kafka", "WARN")])
                  ",") ","
  = foldl store ∅ [("kafka", "INFO"); ("kafka.controller", "TRACE"); ("kafka", "WARN")].
Proof.
  apply (KvStringToMap_well_formed ","
           [("kafka", "INFO"); ("kafka.controller", "TRACE"); ("kafka", "WARN")]).
  - discriminate.
  - repeat constructor.
Defined.

Lemma parseSecondsDuration_exact_range_witness :
  parseSecondsDuration "30" = Some (30 * 1000000000)%Z.
Proof.
  apply (proj2 (parseSecondsDuration_exact_range "30") 30%Z).
  - reflexivity.
  - lia.
Defined.
